(** * code-master: repository word search (src/main.py)

    A shallow embedding of the three stages of [main.py]:
    - [get_repo_dir]: derive the cache directory of a repository and issue
      the git commands that bring it up to date;
    - [search_word_in_repo]: walk the working copy, tally per-extension
      statistics and collect the files that contain the search term;
    - [write_output]: serialise the collected files.

    Text is modelled by [string]; a character is an 8-bit code point (the
    Latin-1 range of Unicode).  Python integers are modelled by [Z]. *)

From Stdlib Require Import ZArith Ascii String List Lia.
From stdpp Require Import gmap strings list fin_maps pretty sorting.

Local Open Scope string_scope.
Local Open Scope list_scope.
Local Open Scope Z_scope.

(** String concatenation computes by cases on its first argument. *)
#[local] Arguments String.append !_ _ / : simpl nomatch.

(** ** Python string primitives *)

Module PyStr.

(** [s.startswith(p)] *)
Fixpoint startswith (p s : string) : bool :=
  match p, s with
  | EmptyString, _ => true
  | String a p', String b s' => if Ascii.eqb a b then startswith p' s' else false
  | String _ _, EmptyString => false
  end.

(** [s.endswith(p)] *)
Definition endswith (p s : string) : bool :=
  startswith (String.rev p) (String.rev s).

(** [needle in hay] for two strings. *)
Fixpoint contains (needle hay : string) : bool :=
  startswith needle hay
  || match hay with
     | EmptyString => false
     | String _ hay' => contains needle hay'
     end.

(** [s.count(c)] for a one-character pattern [c]. *)
Fixpoint count (c : ascii) (s : string) : Z :=
  match s with
  | EmptyString => 0
  | String a s' => (if Ascii.eqb a c then 1 else 0) + count c s'
  end.

(** [s.split(sep)] for a one-character separator: the pieces between the
    occurrences of [sep]; the result is never empty. *)
Fixpoint split (sep : ascii) (s : string) : list string :=
  match s with
  | EmptyString => [EmptyString]
  | String a s' =>
      if Ascii.eqb a sep then EmptyString :: split sep s'
      else match split sep s' with
           | piece :: rest => String a piece :: rest
           | [] => [String a EmptyString]
           end
  end.

(** [l[-1]]: [None] stands for the IndexError on an empty list. *)
Definition index_last (l : list string) : option string := last l.

(** [s.replace(old, new)]: every non-overlapping occurrence of [old],
    scanning from the left, is replaced by [new].  [skip] counts the
    characters of a match that are still to be dropped. *)
Fixpoint replace_from (old new : string) (skip : nat) (s : string) : string :=
  match s with
  | EmptyString =>
      match old with EmptyString => new | _ => EmptyString end
  | String a s' =>
      match skip with
      | S k => replace_from old new k s'
      | O =>
          if startswith old s then
            match old with
            | EmptyString => new +:+ String a (replace_from old new O s')
            | _ => new +:+ replace_from old new (String.length old - 1) s'
            end
          else String a (replace_from old new O s')
      end
  end.

Definition replace (old new s : string) : string := replace_from old new O s.

(** [c.lower()] on the code points below 256: A-Z and the accented
    capitals U+00C0-U+00DE (except the multiplication sign U+00D7) move up
    by 32, every other character is kept. *)
Definition chr_lower (c : ascii) : ascii :=
  let n := N_of_ascii c in
  if ((65 <=? n) && (n <=? 90))%N then ascii_of_N (n + 32)
  else if ((192 <=? n) && (n <=? 222) && negb (n =? 215))%N then ascii_of_N (n + 32)
  else c.

(** [s.lower()] *)
Fixpoint lower (s : string) : string :=
  match s with
  | EmptyString => EmptyString
  | String a s' => String (chr_lower a) (lower s')
  end.

(** Truthiness of a string: [if s:] holds for the non-empty ones. *)
Definition truthy (s : string) : bool :=
  match s with EmptyString => false | _ => true end.

End PyStr.

(** ** [os.path] on POSIX *)

Module OsPath.

(** [os.path.join(a, b)] *)
Definition join (a b : string) : string :=
  if PyStr.startswith "/" b then b
  else if negb (PyStr.truthy a) || PyStr.endswith "/" a then a +:+ b
  else a +:+ "/" +:+ b.

(** The suffix of [p] that starts at the last ["."] with a character other
    than ["."] somewhere before it, if there is one; [seen] tells whether
    such a character was met already. *)
Fixpoint ext_from (seen : bool) (p : string) : option string :=
  match p with
  | EmptyString => None
  | String a p' =>
      match ext_from (seen || negb (Ascii.eqb a "."%char)) p' with
      | Some e => Some e
      | None => if Ascii.eqb a "."%char && seen then Some p else None
      end
  end.

(** [os.path.splitext(name)[1]] for a file name without separator: the
    suffix from the last dot on, unless only dots come before that dot. *)
Definition splitext_ext (name : string) : string :=
  default "" (ext_from false name).

End OsPath.

(** ** Effects

    What the program does to the outside world, in program order:
    [os.makedirs], [print], [subprocess.run] and [open(path, 'r')]. *)

Inductive event :=
| Makedirs (path : string)
| Print (line : string)
| Run (cmd : list string)
| OpenRead (path : string).

(** ** Stage 1: repository acquisition *)

Module Acquisition.

Inductive exn :=
| IndexError
| CalledProcessError (cmd : list string) (code : Z).

Inductive outcome (A : Type) :=
| Returned (a : A)
| Raised (e : exn).
Arguments Returned {A} a.
Arguments Raised {A} e.

(** The outside world as the function sees it: which paths exist, and the
    exit status git gives to each command line. *)
Record env := {
  path_exists : string → bool;
  returncode : list string → Z
}.

(** A computation appends events to the trace and returns or raises. *)
Definition M (A : Type) : Type := list event → list event * outcome A.

Definition ret {A} (a : A) : M A := λ tr, (tr, Returned a).

Definition bind {A B} (m : M A) (k : A → M B) : M B :=
  λ tr, match m tr with
        | (tr', Returned a) => k a tr'
        | (tr', Raised e) => (tr', Raised e)
        end.

Definition raise {A} (e : exn) : M A := λ tr, (tr, Raised e).

Definition emit (ev : event) : M unit := λ tr, (tr ++ [ev], Returned tt).

Notation "'let!' x ':=' m 'in' k" := (bind m (λ x, k))
  (at level 10, x name, m at level 100, k at level 200, only parsing).
Notation "m >> k" := (bind m (λ _, k))
  (at level 100, k at level 200, right associativity, only parsing).

(** [subprocess.run(cmd, check=True)] *)
Definition subprocess_run (E : env) (cmd : list string) : M unit :=
  emit (Run cmd) >>
  if returncode E cmd =? 0 then ret tt
  else raise (CalledProcessError cmd (returncode E cmd)).

(** [if branch:] for an optional branch name. *)
Definition branch_given (branch : option string) : bool :=
  match branch with
  | Some b => PyStr.truthy b
  | None => false
  end.

(** [repo_url.split('/')[-1].replace('.git', '')] *)
Definition repo_name (repo_url : string) : option string :=
  PyStr.replace ".git" "" <$> PyStr.index_last (PyStr.split "/" repo_url).

Definition get_repo_dir (E : env) (repo_url : string) (branch : option string)
  : M string :=
  let! repo_name := match repo_name repo_url with
                    | Some n => ret n
                    | None => raise IndexError
                    end in
  let cache_dir := "./repo_cache" in
  emit (Makedirs cache_dir) >>
  let repo_path := OsPath.join cache_dir repo_name in
  (if negb (path_exists E repo_path) then
     emit (Print ("Cloning repository " +:+ repo_url +:+ " to " +:+ repo_path)) >>
     let clone_cmd := ["git"; "clone"; repo_url; repo_path] in
     let clone_cmd :=
       if branch_given branch
       then clone_cmd ++ ["--branch"; default "" branch]
       else clone_cmd in
     subprocess_run E clone_cmd
   else
     emit (Print ("Using existing repository at " +:+ repo_path)) >>
     if branch_given branch then
       let b := default "" branch in
       emit (Print ("Checking out branch: " +:+ b)) >>
       subprocess_run E ["git"; "-C"; repo_path; "fetch"] >>
       subprocess_run E ["git"; "-C"; repo_path; "checkout"; b] >>
       subprocess_run E ["git"; "-C"; repo_path; "pull"]
     else ret tt) >>
  ret repo_path.

(** The command lines handed to [subprocess.run], in order. *)
Definition commands (tr : list event) : list (list string) :=
  omap (λ ev, match ev with Run cmd => Some cmd | _ => None end) tr.

(** The trace and the outcome of a call started on an empty trace. *)
Definition run_get_repo_dir (E : env) (repo_url : string) (branch : option string)
  : list event * outcome string :=
  get_repo_dir E repo_url branch [].

(** The cache path [get_repo_dir] works on. *)
Definition cache_path (repo_url : string) : string :=
  OsPath.join "./repo_cache" (default "" (repo_name repo_url)).

(** The four command lines of the function. *)
Definition clone_cmd (repo_url repo_path : string) : list string :=
  ["git"; "clone"; repo_url; repo_path].
Definition fetch_cmd (repo_path : string) : list string :=
  ["git"; "-C"; repo_path; "fetch"].
Definition checkout_cmd (repo_path b : string) : list string :=
  ["git"; "-C"; repo_path; "checkout"; b].
Definition pull_cmd (repo_path : string) : list string :=
  ["git"; "-C"; repo_path; "pull"].

(** The commands of a plan that get invoked when a non-zero exit status
    aborts the run: those up to the first failing one, included. *)
Fixpoint until_failure (E : env) (plan : list (list string)) : list (list string) :=
  match plan with
  | [] => []
  | cmd :: rest =>
      cmd :: (if returncode E cmd =? 0 then until_failure E rest else [])
  end.

End Acquisition.


(** ** Stage 2: content scanner *)

Module Scanner.

(** What [open(file_path, 'r', encoding='utf-8')] followed by [f.read()]
    gives for a file: its text, a decode failure, or any other error (with
    the text [str(e)] of the exception). *)
Inductive read_result :=
| ReadOk (content : string)
| UnicodeDecodeError
| ReadError (e : string).

(** The working copy: regular files and directories, the entries of a
    directory in the order the operating system lists them. *)
#[local] Unset Elimination Schemes.
Inductive node :=
| File (name : string) (data : read_result)
| Dir (name : string) (entries : list node).
#[local] Set Elimination Schemes.

(** Induction over a tree, with the hypothesis for every entry of a
    directory. *)
Fixpoint node_ind (P : node → Prop)
    (Hfile : ∀ name data, P (File name data))
    (Hdir : ∀ name entries, Forall P entries → P (Dir name entries))
    (n : node) : P n :=
  match n with
  | File name data => Hfile name data
  | Dir name entries =>
      Hdir name entries
        ((fix all (l : list node) : Forall P l :=
            match l with
            | [] => List.Forall_nil P
            | x :: l' => List.Forall_cons P x l' (node_ind P Hfile Hdir x) (all l')
            end) entries)
  end.

(** One [(root, dirs, files)] item of [os.walk]; [rel] are the directory
    names that lead from the top to [root]. *)
Record visit := {
  root : string;
  rel : list string;
  files_here : list (string * read_result)
}.

Definition files_of (entries : list node) : list (string * read_result) :=
  omap (λ n, match n with File name data => Some (name, data) | Dir _ _ => None end)
       entries.

Definition walk_dir (descend : string → list string → node → list visit)
    (top : string) (rel : list string) (entries : list node) : list visit :=
  {| root := top; rel := rel; files_here := files_of entries |}
  :: flat_map (descend top rel) entries.

(** [os.walk(top)], top-down: a directory is yielded before its
    sub-directories.  The loop body overwrites [dirs] in place with the
    names that satisfy [keep], and [os.walk] descends into those only. *)
Fixpoint walk_node (keep : string → bool) (top : string) (rel : list string)
    (n : node) : list visit :=
  match n with
  | File _ _ => []
  | Dir d sub =>
      if keep d
      then walk_dir (walk_node keep) (OsPath.join top d) (rel ++ [d]) sub
      else []
  end.

Definition os_walk (keep : string → bool) (top : string) (entries : list node)
  : list visit :=
  walk_dir (walk_node keep) top [] entries.

(** [os.path.relpath(os.path.join(root, file), repo_path)] for a [root]
    that [os.walk(repo_path)] yielded: the directory names below the top
    and the file name, joined by the separator. *)
Definition relpath (rel : list string) (file : string) : string :=
  String.concat "/" (rel ++ [file]).

(** The two counters of an extension. *)
Record ext_stats := { files : Z; lines : Z }.

Definition default_factory : ext_stats := {| files := 0; lines := 0 |}.

(** [d[key]] on the defaultdict: a missing key is bound to a fresh default
    entry first. *)
Definition getitem (key : string) (d : gmap string ext_stats)
  : ext_stats * gmap string ext_stats :=
  match d !! key with
  | Some s => (s, d)
  | None => (default_factory, <[key := default_factory]> d)
  end.

(** [d[key]['files'] += n] *)
Definition add_files (key : string) (n : Z) (d : gmap string ext_stats)
  : gmap string ext_stats :=
  let '(s, d) := getitem key d in
  <[key := {| files := files s + n; lines := lines s |}]> d.

(** [d[key]['lines'] += n] *)
Definition add_lines (key : string) (n : Z) (d : gmap string ext_stats)
  : gmap string ext_stats :=
  let '(s, d) := getitem key d in
  <[key := {| files := files s; lines := lines s + n |}]> d.

(** The local variables of [search_word_in_repo] and the effects so far. *)
Record scan_state := {
  collected_files : list (string * string);
  extension_stats : gmap string ext_stats;
  trace : list event
}.

Definition emit (ev : event) (st : scan_state) : scan_state :=
  {| collected_files := collected_files st;
     extension_stats := extension_stats st;
     trace := trace st ++ [ev] |}.

Definition newline : ascii := "010"%char.

(** [content.count('\n') + 1] *)
Definition num_lines (content : string) : Z := PyStr.count newline content + 1.

(** [allowed_extensions and extension not in allowed_extensions]: [None]
    and the empty list are both false. *)
Definition filtered_out (allowed_extensions : option (list string))
    (extension : string) : bool :=
  match allowed_extensions with
  | None | Some [] => false
  | Some exts => negb (bool_decide (extension ∈ exts))
  end.

(** [search_word in search_content] after the optional lower-casing. *)
Definition word_found (word : string) (ignore_case : bool) (content : string) : bool :=
  let search_content := if ignore_case then PyStr.lower content else content in
  let search_word := if ignore_case then PyStr.lower word else word in
  PyStr.contains search_word search_content.

Section Body.
Variables (word : string) (allowed_extensions : option (list string))
          (ignore_case : bool).

(** The body of the inner loop, for one [file] of a visited directory. *)
Definition scan_file (root : string) (rel : list string) (st : scan_state)
    (f : string * read_result) : scan_state :=
  let '(file, data) := f in
  let file_path := OsPath.join root file in
  let extension := PyStr.lower (OsPath.splitext_ext file) in
  if filtered_out allowed_extensions extension then st
  else
    let st := emit (OpenRead file_path) st in
    match data with
    | ReadOk content =>
        let num_lines := num_lines content in
        let st :=
          {| collected_files := collected_files st;
             extension_stats :=
               add_lines extension num_lines
                 (add_files extension 1 (extension_stats st));
             trace := trace st |} in
        if word_found word ignore_case content then
          let rel_path := relpath rel file in
          emit (Print ("Found in: " +:+ rel_path))
            {| collected_files := collected_files st ++ [(rel_path, content)];
               extension_stats := extension_stats st;
               trace := trace st |}
        else st
    | UnicodeDecodeError => st
    | ReadError e => emit (Print ("Error reading " +:+ file_path +:+ ": " +:+ e)) st
    end.

(** The body of the outer loop, for one item of [os.walk]. *)
Definition scan_visit (st : scan_state) (v : visit) : scan_state :=
  fold_left (scan_file (root v) (rel v)) (files_here v) st.

(** Both loops, over the items of the walk. *)
Definition scan (st : scan_state) (walk : list visit) : scan_state :=
  fold_left scan_visit walk st.
End Body.

Definition keep_dir (d : string) : bool := negb (String.eqb d ".git").

(** [sorted(d.keys())] *)
Definition sorted_keys (d : gmap string ext_stats) : list string :=
  merge_sort String.le (map_to_list d).*1.

Definition sum (l : list Z) : Z := fold_left Z.add l 0.

(** The statistics report printed after the traversal. *)
Definition report (d : gmap string ext_stats) : list event :=
  if bool_decide (d = ∅) then
    [Print "No files found matching the search criteria."]
  else
    [Print "Statistics for searched files:"]
    ++ map (λ ext,
              let s := default default_factory (d !! ext) in
              Print (ext +:+ ": " +:+ pretty (files s) +:+ " files, "
                     +:+ pretty (lines s) +:+ " lines"))
           (sorted_keys d)
    ++ [Print ("Total: " +:+ pretty (sum (files <$> (map_to_list d).*2))
               +:+ " files, " +:+ pretty (sum (lines <$> (map_to_list d).*2))
               +:+ " lines")].

Definition initial_state (word : string) (allowed_extensions : option (list string))
    (ignore_case : bool) (repo_path : string) : scan_state :=
  let extensions_msg :=
    match allowed_extensions with
    | None | Some [] => "all text files"
    | Some exts => "files with extensions " +:+ String.concat ", " exts
    end in
  let case_msg := if ignore_case then "(case-insensitive)" else "" in
  {| collected_files := [];
     extension_stats := ∅;
     trace := [Print ("Searching for '" +:+ word +:+ "' " +:+ case_msg +:+ " in "
                      +:+ extensions_msg +:+ " in repository at " +:+ repo_path)] |}.

(** The state when the traversal of the working copy [tree] found at
    [repo_path] is over. *)
Definition scan_repo (repo_path : string) (tree : list node) (word : string)
    (allowed_extensions : option (list string)) (ignore_case : bool) : scan_state :=
  scan word allowed_extensions ignore_case
       (initial_state word allowed_extensions ignore_case repo_path)
       (os_walk keep_dir repo_path tree).

(** *** The files the inner loop meets

    The two nested loops meet the files of the walk one after the other;
    the notions below speak about that sequence. *)

Record visited_file := {
  vf_root : string;
  vf_rel : list string;
  vf_name : string;
  vf_data : read_result
}.

Definition visit_files (v : visit) : list visited_file :=
  map (λ f, {| vf_root := root v; vf_rel := rel v; vf_name := f.1; vf_data := f.2 |})
      (files_here v).

Definition visited_files (walk : list visit) : list visited_file :=
  flat_map visit_files walk.

(** The loop body at a visited file. *)
Definition scan_one (word : string) (allowed_extensions : option (list string))
    (ignore_case : bool) (st : scan_state) (f : visited_file) : scan_state :=
  scan_file word allowed_extensions ignore_case (vf_root f) (vf_rel f) st
            (vf_name f, vf_data f).

Definition vf_extension (f : visited_file) : string :=
  PyStr.lower (OsPath.splitext_ext (vf_name f)).

Definition vf_path (f : visited_file) : string := relpath (vf_rel f) (vf_name f).

(** The text of a file that can be read. *)
Definition vf_text (f : visited_file) : option string :=
  match vf_data f with ReadOk content => Some content | _ => None end.

(** The file passes the extension filter. *)
Definition admitted (allowed_extensions : option (list string)) (f : visited_file)
  : bool :=
  negb (filtered_out allowed_extensions (vf_extension f)).

(** The file passes the filter and is read successfully. *)
Definition counted (allowed_extensions : option (list string)) (f : visited_file)
  : bool :=
  admitted allowed_extensions f && bool_decide (is_Some (vf_text f)).

(** The file is counted and contains the search term. *)
Definition matched (word : string) (allowed_extensions : option (list string))
    (ignore_case : bool) (f : visited_file) : bool :=
  admitted allowed_extensions f
  && match vf_text f with
     | Some content => word_found word ignore_case content
     | None => false
     end.

(** The record the match list gets for a file, if any. *)
Definition match_record (word : string) (allowed_extensions : option (list string))
    (ignore_case : bool) (f : visited_file) : option (string * string) :=
  if matched word allowed_extensions ignore_case f
  then (λ content, (vf_path f, content)) <$> vf_text f
  else None.

(** The texts of the successfully read files with extension [e]. *)
Definition texts_with_extension (e : string) (fs : list visited_file) : list string :=
  omap (λ f, if bool_decide (vf_extension f = e) then vf_text f else None) fs.

(** The texts of the counted files with extension [e]. *)
Definition counted_texts (allowed_extensions : option (list string)) (e : string)
    (fs : list visited_file) : list string :=
  omap (λ f, if admitted allowed_extensions f && bool_decide (vf_extension f = e)
             then vf_text f else None) fs.

(** The sum over texts of (number of newline characters + 1). *)
Fixpoint sum_line_counts (texts : list string) : Z :=
  match texts with
  | [] => 0
  | content :: rest => (PyStr.count newline content + 1) + sum_line_counts rest
  end.

(** The working copy without the files that [drop] selects. *)
Fixpoint strip_node (drop : string → read_result → bool) (n : node) : option node :=
  match n with
  | File name data => if drop name data then None else Some n
  | Dir d sub => Some (Dir d (omap (strip_node drop) sub))
  end.

Definition strip_tree (drop : string → read_result → bool) (entries : list node)
  : list node :=
  omap (strip_node drop) entries.

Definition is_decode_error (data : read_result) : bool :=
  match data with UnicodeDecodeError => true | _ => false end.

(** *** Well-formed working copies

    In a directory no two entries have the same name, and a name holds no
    path separator. *)

Definition node_name (n : node) : string :=
  match n with File name _ | Dir name _ => name end.

Definition valid_name (name : string) : bool := negb (PyStr.contains "/" name).

Fixpoint wf_node (n : node) : bool :=
  match n with
  | File name _ => valid_name name
  | Dir name entries =>
      valid_name name
      && bool_decide (NoDup (node_name <$> entries))
      && forallb wf_node entries
  end.

Definition wf_tree (entries : list node) : bool :=
  bool_decide (NoDup (node_name <$> entries)) && forallb wf_node entries.

(** The names that lead from the top of the walk to a visited file. *)
Definition vf_key (f : visited_file) : list string := vf_rel f ++ [vf_name f].

(** The lines printed among the events of a trace. *)
Definition printed (tr : list event) : list string :=
  omap (λ ev, match ev with Print line => Some line | _ => None end) tr.

(** What a caller can see of a state: the match list, the statistics and
    the printed lines. *)
Definition observable (st : scan_state)
  : list (string * string) * gmap string ext_stats * list string :=
  (collected_files st, extension_stats st, printed (trace st)).

(** The paths opened for reading among the events of a trace. *)
Definition opened (tr : list event) : list string :=
  omap (λ ev, match ev with OpenRead path => Some path | _ => None end) tr.

(** [search_word_in_repo]: the returned match list and everything printed
    or opened on the way. *)
Definition search_word_in_repo (repo_path : string) (tree : list node)
    (word : string) (allowed_extensions : option (list string))
    (ignore_case : bool) : list (string * string) * list event :=
  let st := scan_repo repo_path tree word allowed_extensions ignore_case in
  (collected_files st,
   trace st ++ report (extension_stats st)
   ++ [Print ("Total files with '" +:+ word +:+ "': "
              +:+ pretty (Z.of_nat (length (collected_files st))))]).

End Scanner.

(** ** Stage 3: output writer *)

Module Writer.

Definition nl : string := String Scanner.newline "".

(** The text the loop of [write_output] adds to the buffer [out] of the
    output file for one match. *)
Definition write_match (out : string) (m : string * string) : string :=
  let '(rel_path, content) := m in
  let out := out +:+ ("<filename>" +:+ rel_path +:+ "</filename>" +:+ nl) in
  let out := out +:+ content in
  out +:+ nl.

(** [write_output]: the files of the disk afterwards (path to content) and
    what was printed.  Opening with mode ['w'] creates the file or empties
    it. *)
Definition write_output (collected_files : list (string * string))
    (output_file : string) (disk : gmap string string)
  : gmap string string * list event :=
  let out_file := "" in
  let out_file := fold_left write_match collected_files out_file in
  (<[output_file := out_file]> disk,
   [Print ("Output written to " +:+ output_file)]).

(** The output format in the words of the specification: per match, the
    block [<filename>PATH</filename>] and a newline, then the content, then
    one newline; the blocks one after the other. *)
Definition block (m : string * string) : string :=
  "<filename>" +:+ m.1 +:+ "</filename>" +:+ nl +:+ m.2 +:+ nl.

Fixpoint blocks (ms : list (string * string)) : string :=
  match ms with
  | [] => ""
  | m :: rest => block m +:+ blocks rest
  end.

End Writer.

(** ** A small working copy and three environments, for the examples *)

Module Sample.

Import Scanner.

Definition repo_url : string := "https://github.com/user/repo.git".

Definition repo_path : string := "./repo_cache/repo".

Definition tree : list node :=
  [ File "README.md" (ReadOk ("Hello world" +:+ Writer.nl));
    File "logo.png" UnicodeDecodeError;
    Dir ".git" [ File "HEAD" (ReadOk "hello") ];
    Dir "src"
      [ File "main.py" (ReadOk ("print('hello')" +:+ Writer.nl +:+ "x = 1"));
        File "Util.PY" (ReadOk "");
        File "locked.py" (ReadError "[Errno 13] Permission denied") ] ].

(** The cache directory exists and git succeeds. *)
Definition env_existing : Acquisition.env :=
  {| Acquisition.path_exists := λ _, true; Acquisition.returncode := λ _, 0 |}.

(** The cache directory is absent and git succeeds. *)
Definition env_absent : Acquisition.env :=
  {| Acquisition.path_exists := λ _, false; Acquisition.returncode := λ _, 0 |}.

(** The cache directory exists and every git command exits with status 128. *)
Definition env_failing : Acquisition.env :=
  {| Acquisition.path_exists := λ _, true; Acquisition.returncode := λ _, 128 |}.

End Sample.

(** ** The command line and the three stages in a row *)

Module Main.

Import Acquisition Scanner Writer.

(** The parsed command line ([argparse]'s namespace). *)
Record args := {
  repo_url : string;
  word : string;
  extensions : option string;
  output : string;
  ignore_case : bool;
  branch : option string
}.

(** [[ext.lower() for ext in args.extensions.split(',')] if args.extensions
    else None] *)
Definition parse_extensions (extensions : option string) : option (list string) :=
  match extensions with
  | Some s => if PyStr.truthy s then Some (PyStr.lower <$> PyStr.split "," s) else None
  | None => None
  end.

(** [main] after the parsing of the command line: the events, how the run
    ends and the disk afterwards.  [working_copy] gives the tree found at a
    path once the repository has been acquired. *)
Definition main (E : env) (working_copy : string → list node)
    (disk : gmap string string) (a : args)
  : list event * outcome unit * gmap string string :=
  match get_repo_dir E (repo_url a) (branch a) [] with
  | (tr, Raised e) => (tr, Raised e, disk)
  | (tr, Returned repo_path) =>
      let allowed_extensions := parse_extensions (extensions a) in
      let '(collected_files, tr_search) :=
        search_word_in_repo repo_path (working_copy repo_path) (word a)
                            allowed_extensions (ignore_case a) in
      let '(disk, tr_write) := write_output collected_files (output a) disk in
      (tr ++ tr_search ++ tr_write, Returned tt, disk)
  end.

End Main.

(** ** Further notions about a scan *)

Module ScanNotions.

Import Scanner.

Definition is_read_error (data : read_result) : bool :=
  match data with ReadError _ => true | _ => false end.

(** [os.path.join(root, file)]: the path the loop body opens. *)
Definition file_path (f : visited_file) : string :=
  OsPath.join (vf_root f) (vf_name f).

(** [sum(stats['files'] for stats in extension_stats.values())] *)
Definition total_files (d : gmap string ext_stats) : Z :=
  sum (files <$> (map_to_list d).*2).

(** [sum(stats['lines'] for stats in extension_stats.values())] *)
Definition total_lines (d : gmap string ext_stats) : Z :=
  sum (lines <$> (map_to_list d).*2).

(** The files of a tree, each with the directory names that lead to it
    from [rel] on, its name and what reading it gives. *)
Fixpoint node_files (rel : list string) (n : node)
  : list (list string * string * read_result) :=
  match n with
  | File name data => [(rel, name, data)]
  | Dir d sub => flat_map (node_files (rel ++ [d])) sub
  end.

Definition tree_files (entries : list node)
  : list (list string * string * read_result) :=
  flat_map (node_files []) entries.

Definition vf_entry (f : visited_file) : list string * string * read_result :=
  (vf_rel f, vf_name f, vf_data f).

(** The line of the report for the extension [ext]. *)
Definition stat_line (d : gmap string ext_stats) (ext : string) : event :=
  let s := default default_factory (d !! ext) in
  Print (ext +:+ ": " +:+ pretty (files s) +:+ " files, "
         +:+ pretty (lines s) +:+ " lines").

(** The last line of the report. *)
Definition total_line (d : gmap string ext_stats) : event :=
  Print ("Total: " +:+ pretty (total_files d) +:+ " files, "
         +:+ pretty (total_lines d) +:+ " lines").

(** The texts of all counted files, in the order of the walk. *)
Definition all_counted_texts (allowed_extensions : option (list string))
    (fs : list visited_file) : list string :=
  omap (λ f, if admitted allowed_extensions f then vf_text f else None) fs.

End ScanNotions.

(** ** A command line for the examples *)

Module SampleRun.

Definition args : Main.args :=
  {| Main.repo_url := Sample.repo_url;
     Main.word := "hello";
     Main.extensions := Some ".PY";
     Main.output := "output.txt";
     Main.ignore_case := false;
     Main.branch := Some "dev" |}.

(** The sample tree is what every path holds. *)
Definition working_copy (path : string) : list Scanner.node := Sample.tree.

End SampleRun.

(** * Properties *)

(** ** Strings *)

Section StringFacts.

Lemma append_assoc (a b c : string) : (a +:+ b) +:+ c = a +:+ (b +:+ c).
Proof. induction a as [|x a IH]; simpl; [done | by rewrite IH]. Qed.

Lemma append_nil_r (a : string) : a +:+ "" = a.
Proof. induction a as [|x a IH]; simpl; [done | by rewrite IH]. Qed.

Lemma startswith_spec (p s : string) :
  PyStr.startswith p s = true ↔ ∃ t, s = p +:+ t.
Proof.
  revert s. induction p as [|a p IH]; intros s; simpl.
  - split; [intros _; by exists s | done].
  - destruct s as [|b s]; simpl.
    + split; [done | intros [t Ht]; discriminate].
    + destruct (Ascii.eqb_spec a b) as [->|Hne].
      * rewrite IH. split; intros [t Ht]; exists t; congruence.
      * split; [done | intros [t Ht]; congruence].
Qed.

(** [needle in hay] is the substring relation. *)
Lemma contains_spec (needle hay : string) :
  PyStr.contains needle hay = true ↔ ∃ pre post, hay = pre +:+ needle +:+ post.
Proof.
  induction hay as [|b hay IH]; simpl.
  - rewrite orb_false_r, startswith_spec. split.
    + intros [t Ht]. by exists "", t.
    + intros [[|x pre] [post H]]; [by exists post | discriminate].
  - rewrite orb_true_iff, startswith_spec, IH. split.
    + intros [[t Ht] | (pre & post & Ht)].
      * by exists "", t.
      * exists (String b pre), post. simpl. by rewrite Ht.
    + intros [[|x pre] [post H]].
      * left. by exists post.
      * right. exists pre, post. simpl in H. congruence.
Qed.

Lemma contains_empty (hay : string) : PyStr.contains "" hay = true.
Proof. by destruct hay. Qed.

Lemma count_nonneg (c : ascii) (s : string) : 0 ≤ PyStr.count c s.
Proof. induction s as [|a s IH]; simpl; [done | destruct (Ascii.eqb a c); lia]. Qed.

Lemma split_nonempty (c : ascii) (s : string) : PyStr.split c s ≠ [].
Proof.
  induction s as [|a s IH]; simpl; [done |].
  destruct (Ascii.eqb a c); [done |]. by destruct (PyStr.split c s).
Qed.

(** Where [old] does not occur, [replace] changes nothing. *)
Lemma replace_absent (old new s : string) :
  old ≠ "" → PyStr.contains old s = false → PyStr.replace old new s = s.
Proof.
  intros Hold. unfold PyStr.replace.
  induction s as [|a s IH]; cbn [PyStr.replace_from PyStr.contains].
  - by destruct old.
  - intros [Hs Hc]%orb_false_elim. by rewrite Hs, (IH Hc).
Qed.

Lemma index_last_split (c : ascii) (s : string) :
  is_Some (PyStr.index_last (PyStr.split c s)).
Proof.
  unfold PyStr.index_last. destruct (last (PyStr.split c s)) eqn:E; [eauto |].
  apply last_None in E. by apply split_nonempty in E.
Qed.

End StringFacts.

(** ** Repository acquisition *)

Section AcquisitionFacts.
Import Acquisition.

Lemma repo_name_is_Some (repo_url : string) : is_Some (repo_name repo_url).
Proof.
  unfold repo_name.
  destruct (index_last_split "/" repo_url) as [seg ->]. by eexists.
Qed.

Lemma branch_given_Some (b : string) : b ≠ "" → branch_given (Some b) = true.
Proof. by destruct b. Qed.

(** C1, evaluated on the code: for the URL
    [https://github.com/user/my.github.io], whose final segment
    [my.github.io] does not end in [.git], the derived directory name is
    [myhub.io]: [replace] removes the [.git] inside the segment too. *)
Theorem repo_name_inner_git_removed :
  repo_name "https://github.com/user/my.github.io" = Some "myhub.io"
  ∧ PyStr.index_last (PyStr.split "/" "https://github.com/user/my.github.io")
    = Some "my.github.io"
  ∧ PyStr.endswith ".git" "my.github.io" = false
  ∧ cache_path "https://github.com/user/my.github.io" = "./repo_cache/myhub.io".
Proof. repeat split; reflexivity. Qed.

(** C2: the git commands of a call of [get_repo_dir], for the cache path
    [cache_path repo_url] it works on.  Absent cache directory: exactly one
    clone command, ending in [--branch b] when a (non-empty) branch [b] was
    given and without that flag otherwise.  Existing directory and branch
    [b]: fetch, checkout of [b], pull, in that order, each one run once the
    ones before it have exited with status zero (a failing command aborts
    the call); all three when none fails.  Existing directory and no
    branch: no command at all. *)
Theorem get_repo_dir_commands (E : env) (repo_url : string) (branch : option string) :
  (path_exists E (cache_path repo_url) = false →
     (∀ b, branch = Some b → b ≠ "" →
        commands (run_get_repo_dir E repo_url branch).1
        = [clone_cmd repo_url (cache_path repo_url) ++ ["--branch"; b]])
     ∧ (branch = None ∨ branch = Some "" →
        commands (run_get_repo_dir E repo_url branch).1
        = [clone_cmd repo_url (cache_path repo_url)]))
  ∧ (path_exists E (cache_path repo_url) = true →
     (∀ b, branch = Some b → b ≠ "" →
        commands (run_get_repo_dir E repo_url branch).1
        = until_failure E [fetch_cmd (cache_path repo_url);
                           checkout_cmd (cache_path repo_url) b;
                           pull_cmd (cache_path repo_url)]
        ∧ (returncode E (fetch_cmd (cache_path repo_url)) = 0 →
           returncode E (checkout_cmd (cache_path repo_url) b) = 0 →
           commands (run_get_repo_dir E repo_url branch).1
           = [fetch_cmd (cache_path repo_url);
              checkout_cmd (cache_path repo_url) b;
              pull_cmd (cache_path repo_url)]))
     ∧ (branch = None ∨ branch = Some "" →
        commands (run_get_repo_dir E repo_url branch).1 = [])).
Proof.
  unfold run_get_repo_dir, get_repo_dir, cache_path.
  destruct (repo_name_is_Some repo_url) as [name ->]. simpl default.
  unfold fetch_cmd, checkout_cmd, pull_cmd, clone_cmd.
  cbv [bind emit ret raise subprocess_run].
  generalize (OsPath.join "./repo_cache" name). intros path.
  split; intros Hex; rewrite Hex; cbn [negb];
    (split; [intros b -> Hb; rewrite (branch_given_Some b Hb)
            | intros Hb;
              assert (branch_given branch = false) as ->
                by (by destruct Hb as [-> | ->])]).
  - cbn. by destruct (returncode E _ =? 0).
  - cbn. by destruct (returncode E _ =? 0).
  - cbn.
    destruct (returncode E ["git"; "-C"; path; "fetch"] =? 0) eqn:E1; cbn;
      [| split; [done | intros H0; rewrite H0 in E1; done]].
    destruct (returncode E ["git"; "-C"; path; "checkout"; b] =? 0) eqn:E2; cbn;
      [| split; [done | intros _ H0; rewrite H0 in E2; done]].
    by destruct (returncode E ["git"; "-C"; path; "pull"] =? 0).
  - done.
Qed.

End AcquisitionFacts.

(** ** The directory walk *)

Section WalkFacts.
Import Scanner.
Variables (keep : string → bool) (drop : string → read_result → bool).

Lemma visited_files_cons (v : visit) (walk : list visit) :
  visited_files (v :: walk) = visit_files v ++ visited_files walk.
Proof. done. Qed.

Lemma visited_files_app (w1 w2 : list visit) :
  visited_files (w1 ++ w2) = visited_files w1 ++ visited_files w2.
Proof. unfold visited_files. apply flat_map_app. Qed.

Lemma visit_files_strip (top : string) (rel : list string) (entries : list node) :
  visit_files {| root := top; rel := rel;
                 files_here := files_of (strip_tree drop entries) |}
  = filter (λ f, drop (vf_name f) (vf_data f) = false)
      (visit_files {| root := top; rel := rel; files_here := files_of entries |}).
Proof.
  unfold visit_files, strip_tree, files_of. cbn [root Scanner.rel files_here].
  induction entries as [|[name data|d sub] entries IH]; cbn; [done | | done].
  destruct (drop name data) eqn:Hd; cbn; [apply IH | f_equal; apply IH].
Qed.

Lemma walk_dir_strip (entries : list node) :
  Forall (λ n, ∀ top rel,
            visited_files
              (flat_map (walk_node keep top rel) (option_list (strip_node drop n)))
            = filter (λ f, drop (vf_name f) (vf_data f) = false)
                (visited_files (walk_node keep top rel n))) entries →
  ∀ top rel,
    visited_files (walk_dir (walk_node keep) top rel (strip_tree drop entries))
    = filter (λ f, drop (vf_name f) (vf_data f) = false)
        (visited_files (walk_dir (walk_node keep) top rel entries)).
Proof.
  intros Hall top rel. unfold walk_dir.
  rewrite !visited_files_cons, filter_app, visit_files_strip. f_equal.
  induction Hall as [|n entries Hn _ IH]; [done |].
  cbn [flat_map]. rewrite visited_files_app, filter_app, <- IH, <- Hn.
  unfold strip_tree. cbn [omap list_omap].
  destruct (strip_node drop n) as [n'|]; cbn [flat_map]; [| done].
  rewrite visited_files_app. f_equal. cbn. by rewrite app_nil_r.
Qed.

Lemma walk_node_strip (n : node) (top : string) (rel : list string) :
  visited_files (flat_map (walk_node keep top rel) (option_list (strip_node drop n)))
  = filter (λ f, drop (vf_name f) (vf_data f) = false)
      (visited_files (walk_node keep top rel n)).
Proof.
  revert top rel. induction n as [name data|d sub IH] using node_ind; intros top rel.
  - cbn. by destruct (drop name data).
  - cbn [strip_node walk_node]. simpl (option_list _). cbn [flat_map].
    rewrite app_nil_r. cbn [walk_node].
    destruct (keep d); [| done].
    by apply walk_dir_strip.
Qed.

(** Walking the stripped working copy visits the files that are left, in
    the same order. *)
Lemma os_walk_strip (top : string) (tree : list node) :
  visited_files (os_walk keep top (strip_tree drop tree))
  = filter (λ f, drop (vf_name f) (vf_data f) = false)
      (visited_files (os_walk keep top tree)).
Proof.
  unfold os_walk. apply walk_dir_strip, Forall_forall.
  intros n _ top' rel. apply walk_node_strip.
Qed.

End WalkFacts.

(** ** Content scanner *)

Section ScannerFacts.
Import Scanner.
Variables (word : string) (allowed : option (list string)) (ignore_case : bool).

Abbreviation scan_one := (Scanner.scan_one word allowed ignore_case).
Abbreviation scan_all := (fold_left (Scanner.scan_one word allowed ignore_case)).

(** The nested loops are one loop over the visited files. *)
Lemma scan_visit_flat (st : scan_state) (v : visit) :
  scan_visit word allowed ignore_case st v = scan_all (visit_files v) st.
Proof.
  unfold scan_visit, visit_files. generalize (root v) (rel v). intros r l.
  revert st. induction (files_here v) as [|[name data] fs IH]; intros st; [done |].
  simpl. apply IH.
Qed.

Lemma scan_flat (st : scan_state) (walk : list visit) :
  scan word allowed ignore_case st walk = scan_all (visited_files walk) st.
Proof.
  unfold scan, visited_files. revert st.
  induction walk as [|v walk IH]; intros st; [done |].
  simpl. rewrite fold_left_app, <- scan_visit_flat. apply IH.
Qed.

(** *** One file *)

Lemma getitem_add (key : string) (d : gmap string ext_stats) (n m : Z) (e : string) :
  add_lines key m (add_files key n d) !! e
  = if decide (e = key)
    then Some {| files := files (default default_factory (d !! key)) + n;
                 lines := lines (default default_factory (d !! key)) + m |}
    else d !! e.
Proof.
  unfold add_lines, add_files, getitem.
  destruct (d !! key) as [s|] eqn:Hd; simpl.
  - rewrite lookup_insert_eq. case_decide as He; subst.
    + by rewrite lookup_insert_eq.
    + by rewrite !lookup_insert_ne.
  - rewrite lookup_insert_eq. case_decide as He; subst.
    + by rewrite lookup_insert_eq.
    + by rewrite !lookup_insert_ne.
Qed.

Lemma scan_one_collected (st : scan_state) (f : visited_file) :
  collected_files (scan_one st f)
  = collected_files st ++ option_list (match_record word allowed ignore_case f).
Proof.
  unfold match_record, matched, admitted, Scanner.scan_one, scan_file, vf_extension, vf_text,
    vf_path.
  destruct (filtered_out _ _); simpl; [by rewrite app_nil_r |].
  destruct (vf_data f) as [content| |e]; simpl; try by rewrite app_nil_r.
  destruct (word_found _ _ _); simpl; [done | by rewrite app_nil_r].
Qed.

Lemma scan_one_stats (st : scan_state) (f : visited_file) (e : string) :
  extension_stats (scan_one st f) !! e
  = match vf_text f with
    | Some content =>
        if admitted allowed f && bool_decide (vf_extension f = e)
        then Some {| files := files (default default_factory (extension_stats st !! e)) + 1;
                     lines := lines (default default_factory (extension_stats st !! e))
                              + num_lines content |}
        else extension_stats st !! e
    | None => extension_stats st !! e
    end.
Proof.
  unfold admitted, Scanner.scan_one, scan_file, vf_extension, vf_text.
  destruct (filtered_out _ _); simpl; [by destruct (vf_data f) |].
  destruct (vf_data f) as [content| |err]; simpl; try done.
  destruct (word_found _ _ _); simpl; rewrite getitem_add;
    case_bool_decide as He; case_decide as He'; subst; done.
Qed.

(** *** The whole traversal *)

Lemma scan_all_collected (fs : list visited_file) (st : scan_state) :
  collected_files (scan_all fs st)
  = collected_files st ++ omap (match_record word allowed ignore_case) fs.
Proof.
  revert st. induction fs as [|f fs IH]; intros st; simpl.
  - by rewrite app_nil_r.
  - rewrite IH, scan_one_collected, <- app_assoc. f_equal.
    by destruct (match_record _ _ _ f).
Qed.

Lemma sum_line_counts_ge (texts : list string) :
  Z.of_nat (length texts) ≤ sum_line_counts texts.
Proof.
  induction texts as [|c texts IH]; simpl; [done |].
  pose proof (count_nonneg newline c). lia.
Qed.

Lemma counted_texts_cons (e : string) (f : visited_file) (fs : list visited_file) :
  counted_texts allowed e (f :: fs)
  = match vf_text f with
    | Some content =>
        if admitted allowed f && bool_decide (vf_extension f = e)
        then content :: counted_texts allowed e fs
        else counted_texts allowed e fs
    | None => counted_texts allowed e fs
    end.
Proof.
  unfold counted_texts. cbn [omap list_omap].
  destruct (admitted allowed f && bool_decide (vf_extension f = e));
    by destruct (vf_text f).
Qed.

(** The entry of an extension after the files [fs]: untouched when no file
    of [fs] is counted for it, otherwise grown by their number and by the
    sum of their line counts. *)
Lemma scan_all_stats (fs : list visited_file) (st : scan_state) (e : string) :
  extension_stats (scan_all fs st) !! e
  = match counted_texts allowed e fs with
    | [] => extension_stats st !! e
    | texts =>
        Some {| files := files (default default_factory (extension_stats st !! e))
                         + Z.of_nat (length texts);
                lines := lines (default default_factory (extension_stats st !! e))
                         + sum_line_counts texts |}
    end.
Proof.
  revert st. induction fs as [|f fs IH]; intros st; [done |].
  cbn [fold_left]. rewrite IH, scan_one_stats, counted_texts_cons.
  destruct (vf_text f) as [content|]; [| done].
  destruct (admitted allowed f && bool_decide (vf_extension f = e)); [| done].
  unfold num_lines.
  destruct (counted_texts allowed e fs) as [|c texts];
    cbn [default from_option id files lines length sum_line_counts];
    f_equal; f_equal; lia.
Qed.

(** An extension that has a counted file passes the filter, and then every
    readable file with that extension is counted. *)
Lemma texts_with_extension_cons (e : string) (f : visited_file)
    (fs : list visited_file) :
  texts_with_extension e (f :: fs)
  = match vf_text f with
    | Some content =>
        if bool_decide (vf_extension f = e)
        then content :: texts_with_extension e fs
        else texts_with_extension e fs
    | None => texts_with_extension e fs
    end.
Proof.
  unfold texts_with_extension. cbn [omap list_omap].
  destruct (bool_decide (vf_extension f = e)); by destruct (vf_text f).
Qed.

Lemma counted_texts_admitted (e : string) (fs : list visited_file) :
  counted_texts allowed e fs
  = if filtered_out allowed e then [] else texts_with_extension e fs.
Proof.
  induction fs as [|f fs IH]; [by destruct (filtered_out _ _) |].
  rewrite counted_texts_cons, texts_with_extension_cons, IH. unfold admitted.
  case_bool_decide as He; subst.
  - destruct (filtered_out allowed (vf_extension f)), (vf_text f); done.
  - rewrite andb_false_r. by destruct (vf_text f), (filtered_out allowed e).
Qed.

(** The statistics from an empty table. *)
Lemma scan_all_stats_init (fs : list visited_file) (st : scan_state) (e : string) :
  extension_stats st = ∅ →
  extension_stats (scan_all fs st) !! e
  = match counted_texts allowed e fs with
    | [] => None
    | texts => Some {| files := Z.of_nat (length texts);
                       lines := sum_line_counts texts |}
    end.
Proof.
  intros Hst. rewrite scan_all_stats, Hst, lookup_empty.
  by destruct (counted_texts allowed e fs).
Qed.

Lemma scan_repo_flat (repo_path : string) (tree : list node) :
  scan_repo repo_path tree word allowed ignore_case
  = scan_all (visited_files (os_walk keep_dir repo_path tree))
             (initial_state word allowed ignore_case repo_path).
Proof. unfold scan_repo. apply scan_flat. Qed.

Lemma scan_repo_stats (repo_path : string) (tree : list node) (e : string) :
  extension_stats (scan_repo repo_path tree word allowed ignore_case) !! e
  = match counted_texts allowed e (visited_files (os_walk keep_dir repo_path tree)) with
    | [] => None
    | texts => Some {| files := Z.of_nat (length texts);
                       lines := sum_line_counts texts |}
    end.
Proof. rewrite scan_repo_flat. by apply scan_all_stats_init. Qed.

(** C3: a successfully read file adds (number of newline characters + 1)
    to the [lines] counter of its extension, so an empty file adds 1; and
    after the scan of a working copy the [lines] counter of every extension
    in the table is the sum of that quantity over the successfully read
    files with that extension. *)
Theorem lines_counter_is_sum_of_line_counts (repo_path : string) (tree : list node) :
  (∀ st f content,
     admitted allowed f = true → vf_data f = ReadOk content →
     ∃ s, extension_stats (scan_one st f) !! vf_extension f = Some s
          ∧ lines s = lines (default default_factory
                               (extension_stats st !! vf_extension f))
                      + (PyStr.count newline content + 1))
  ∧ num_lines "" = 1
  ∧ (∀ e s,
       extension_stats (scan_repo repo_path tree word allowed ignore_case) !! e = Some s →
       lines s = sum_line_counts
                   (texts_with_extension e
                      (visited_files (os_walk keep_dir repo_path tree)))).
Proof.
  split; [| split; [done |]].
  - intros st f content Hadm Hdata. rewrite scan_one_stats. unfold vf_text.
    rewrite Hdata, Hadm, bool_decide_true by done. eexists; split; [done |]. done.
  - intros e s. rewrite scan_repo_stats, counted_texts_admitted.
    destruct (filtered_out allowed e); [done |].
    destruct (texts_with_extension _ _) as [|c texts]; [done |].
    by intros [= <-].
Qed.

(** C10: after the scan every extension in the table has [files >= 1] and
    [lines >= files]; the same holds in every state the scan goes through
    (after any number of the visited files), and the counters of an entry
    never decrease from one such state to the final one, nor when one more
    file is processed. *)
Theorem counters_positive_and_increasing (repo_path : string) (tree : list node) :
  (∀ e s,
     extension_stats (scan_repo repo_path tree word allowed ignore_case) !! e = Some s →
     1 ≤ files s ∧ files s ≤ lines s)
  ∧ (∀ fs1 fs2 e s1,
       visited_files (os_walk keep_dir repo_path tree) = fs1 ++ fs2 →
       extension_stats
         (scan_all fs1 (initial_state word allowed ignore_case repo_path)) !! e
       = Some s1 →
       (1 ≤ files s1 ∧ files s1 ≤ lines s1)
       ∧ ∃ s2,
           extension_stats (scan_repo repo_path tree word allowed ignore_case) !! e
           = Some s2
           ∧ files s1 ≤ files s2 ∧ lines s1 ≤ lines s2)
  ∧ (∀ st f e s1,
       extension_stats st !! e = Some s1 →
       ∃ s2, extension_stats (scan_one st f) !! e = Some s2
             ∧ files s1 ≤ files s2 ∧ lines s1 ≤ lines s2).
Proof.
  assert (∀ fs e s,
            extension_stats
              (scan_all fs (initial_state word allowed ignore_case repo_path)) !! e
            = Some s → 1 ≤ files s ∧ files s ≤ lines s) as Hinv.
  { intros fs e s. rewrite scan_all_stats_init by done.
    destruct (counted_texts allowed e fs) as [|c texts] eqn:Hc; [done |].
    intros [= <-]. cbn [files lines].
    pose proof (sum_line_counts_ge (c :: texts)). cbn [length sum_line_counts] in *. lia. }
  split; [| split].
  - intros e s. rewrite scan_repo_flat. apply Hinv.
  - intros fs1 fs2 e s1 Hfs H1. split; [by eapply Hinv |].
    rewrite scan_repo_flat, Hfs, fold_left_app, scan_all_stats, H1.
    destruct (counted_texts allowed e fs2) as [|c texts] eqn:Hc.
    + exists s1. split; [done | lia].
    + eexists. split; [done |]. cbn [default from_option id files lines].
      pose proof (sum_line_counts_ge (c :: texts)). cbn [length sum_line_counts] in *. lia.
  - intros st f e s1 H1. rewrite scan_one_stats, H1.
    destruct (vf_text f) as [content|]; [| exists s1; split; [done | lia]].
    destruct (admitted allowed f && bool_decide (vf_extension f = e));
      [| exists s1; split; [done | lia]].
    eexists. split; [done |]. cbn [default from_option id files lines].
    unfold num_lines. pose proof (count_nonneg newline content). lia.
Qed.

(** *** Files that leave no mark *)

Lemma printed_app (tr1 tr2 : list event) :
  printed (tr1 ++ tr2) = printed tr1 ++ printed tr2.
Proof. apply omap_app. Qed.

Lemma scan_all_filter (P : visited_file → Prop) `{!∀ f, Decision (P f)}
    (fs : list visited_file) (st : scan_state) :
  (∀ st' f, ¬ P f → scan_one st' f = st') →
  scan_all (filter P fs) st = scan_all fs st.
Proof.
  intros Hskip. revert st. induction fs as [|f fs IH]; intros st; [done |].
  destruct (decide (P f)) as [HP|HP].
  - rewrite filter_cons_True by done. cbn [fold_left]. apply IH.
  - rewrite filter_cons_False by done. cbn [fold_left].
    by rewrite (Hskip st f HP).
Qed.

Lemma scan_one_observable (st1 st2 : scan_state) (f : visited_file) :
  observable st1 = observable st2 →
  observable (scan_one st1 f) = observable (scan_one st2 f).
Proof.
  unfold observable, Scanner.scan_one, scan_file. intros [= Hc Hs Hp].
  destruct (filtered_out _ _); [by rewrite Hc, Hs, Hp |].
  destruct (vf_data f) as [content| |err]; [destruct (word_found _ _ _) | |];
    cbn [collected_files extension_stats trace emit];
    rewrite ?printed_app, Hc, Hs, Hp; done.
Qed.

Lemma scan_one_undecodable (st : scan_state) (f : visited_file) :
  is_decode_error (vf_data f) = true →
  observable (scan_one st f) = observable st.
Proof.
  unfold observable, Scanner.scan_one, scan_file. intros Hd.
  destruct (filtered_out _ _); [done |].
  destruct (vf_data f); try done.
  cbn [collected_files extension_stats trace emit].
  by rewrite printed_app, app_nil_r.
Qed.

Lemma scan_all_undecodable (fs : list visited_file) (st1 st2 : scan_state) :
  observable st1 = observable st2 →
  observable (scan_all (filter (λ f, is_decode_error (vf_data f) = false) fs) st1)
  = observable (scan_all fs st2).
Proof.
  revert st1 st2. induction fs as [|f fs IH]; intros st1 st2 Hobs; [done |].
  destruct (is_decode_error (vf_data f)) eqn:Hd.
  - rewrite filter_cons_False by (rewrite Hd; done). cbn [fold_left].
    apply IH. by rewrite scan_one_undecodable.
  - rewrite filter_cons_True by done. cbn [fold_left].
    by apply IH, scan_one_observable.
Qed.

(** The result of [search_word_in_repo] and the lines it prints are
    determined by the observable part of the state after the loops. *)
Lemma search_result_observable (p1 p2 : string) (t1 t2 : list node) :
  observable (scan_repo p1 t1 word allowed ignore_case)
  = observable (scan_repo p2 t2 word allowed ignore_case) →
  (search_word_in_repo p1 t1 word allowed ignore_case).1
  = (search_word_in_repo p2 t2 word allowed ignore_case).1
  ∧ printed (search_word_in_repo p1 t1 word allowed ignore_case).2
    = printed (search_word_in_repo p2 t2 word allowed ignore_case).2.
Proof.
  unfold observable, search_word_in_repo. intros [= Hc Hs Hp].
  cbn [fst snd]. rewrite !printed_app, Hc, Hs, Hp. done.
Qed.

(** C4: for a file that passed the extension filter and was read as
    [content], the match list grows by exactly one record when the term is
    a substring of the content (both lower-cased in case-insensitive mode,
    both as given in case-sensitive mode) and stays as it is otherwise; the
    record is the relative path with the content as read. *)
Theorem appended_iff_substring (st : scan_state) (root : string) (rel : list string)
    (file content : string) :
  filtered_out allowed (PyStr.lower (OsPath.splitext_ext file)) = false →
  (ignore_case = true →
     ((∃ pre post, PyStr.lower content = pre +:+ PyStr.lower word +:+ post)
      ∧ collected_files
          (scan_file word allowed ignore_case root rel st (file, ReadOk content))
        = collected_files st ++ [(relpath rel file, content)])
     ∨ (¬ (∃ pre post, PyStr.lower content = pre +:+ PyStr.lower word +:+ post)
        ∧ collected_files
            (scan_file word allowed ignore_case root rel st (file, ReadOk content))
          = collected_files st))
  ∧ (ignore_case = false →
       ((∃ pre post, content = pre +:+ word +:+ post)
        ∧ collected_files
            (scan_file word allowed ignore_case root rel st (file, ReadOk content))
          = collected_files st ++ [(relpath rel file, content)])
       ∨ (¬ (∃ pre post, content = pre +:+ word +:+ post)
          ∧ collected_files
              (scan_file word allowed ignore_case root rel st (file, ReadOk content))
            = collected_files st)).
Proof.
  intros Hf. unfold scan_file. rewrite Hf. unfold word_found.
  split; intros ->.
  - destruct (PyStr.contains (PyStr.lower word) (PyStr.lower content)) eqn:Hc.
    + left. split; [by apply contains_spec | done].
    + right. split; [| done]. rewrite <- contains_spec, Hc. done.
  - destruct (PyStr.contains word content) eqn:Hc.
    + left. split; [by apply contains_spec | done].
    + right. split; [| done]. rewrite <- contains_spec, Hc. done.
Qed.

End ScannerFacts.

(** ** Skipped files and the empty search term *)

Section SkippedFiles.
Import Scanner.

Lemma filtered_out_not_elem (exts : list string) (e : string) :
  exts ≠ [] → e ∉ exts → filtered_out (Some exts) e = true.
Proof.
  intros Hne Hnot. unfold filtered_out.
  destruct exts as [|x exts]; [done |]. by rewrite bool_decide_false.
Qed.

(** C5: with a non-empty allow-list [exts], a file whose lower-cased
    extension is not in [exts] leaves the whole state of the scan as it was:
    it is not opened, no counter changes, the match list does not grow,
    nothing is printed.  So the search returns and prints the same, and
    opens the same files, as on the working copy without those files,
    whatever they contain; their extension has no entry in the statistics;
    and every record of the match list comes from a file whose extension is
    in [exts]. *)
Theorem filtered_extension_is_skipped (word : string) (exts : list string)
    (ignore_case : bool) :
  exts ≠ [] →
  (∀ st root rel file data,
     PyStr.lower (OsPath.splitext_ext file) ∉ exts →
     scan_file word (Some exts) ignore_case root rel st (file, data) = st)
  ∧ (∀ repo_path tree,
       search_word_in_repo repo_path tree word (Some exts) ignore_case
       = search_word_in_repo repo_path
           (strip_tree
              (λ name _, bool_decide (PyStr.lower (OsPath.splitext_ext name) ∉ exts))
              tree)
           word (Some exts) ignore_case)
  ∧ (∀ repo_path tree e,
       e ∉ exts →
       extension_stats (scan_repo repo_path tree word (Some exts) ignore_case) !! e
       = None)
  ∧ (∀ repo_path tree p c,
       (p, c) ∈ (search_word_in_repo repo_path tree word (Some exts) ignore_case).1 →
       ∃ f, f ∈ visited_files (os_walk keep_dir repo_path tree)
            ∧ vf_extension f ∈ exts ∧ vf_path f = p ∧ vf_data f = ReadOk c).
Proof.
  intros Hne.
  assert (∀ st root rel file data,
            PyStr.lower (OsPath.splitext_ext file) ∉ exts →
            scan_file word (Some exts) ignore_case root rel st (file, data) = st)
    as Hfile.
  { intros st root rel file data Hnot. unfold scan_file.
    by rewrite (filtered_out_not_elem _ _ Hne Hnot). }
  split; [exact Hfile |]. split; [| split].
  - intros repo_path tree. unfold search_word_in_repo.
    assert (scan_repo repo_path
              (strip_tree
                 (λ name _, bool_decide (PyStr.lower (OsPath.splitext_ext name) ∉ exts))
                 tree) word (Some exts) ignore_case
            = scan_repo repo_path tree word (Some exts) ignore_case) as ->; [| done].
    rewrite !scan_repo_flat, os_walk_strip. apply scan_all_filter.
    intros st f Hf. apply Hfile.
    destruct (decide (PyStr.lower (OsPath.splitext_ext (vf_name f)) ∈ exts)) as [Hin|Hin];
      [| done].
    exfalso. apply Hf. by apply bool_decide_eq_false; intros ?.
  - intros repo_path tree e Hnot.
    rewrite scan_repo_stats, counted_texts_admitted.
    by rewrite (filtered_out_not_elem _ _ Hne Hnot).
  - intros repo_path tree p c. unfold search_word_in_repo. cbn [fst].
    rewrite scan_repo_flat, scan_all_collected. cbn [initial_state collected_files app].
    rewrite list_elem_of_omap. intros (f & Hf & Hrec). exists f. split; [done |].
    unfold match_record, matched, admitted in Hrec.
    destruct (filtered_out (Some exts) (vf_extension f)) eqn:Hfo; [done |].
    unfold vf_text in Hrec. destruct (vf_data f) as [content| |err] eqn:Hd; try done.
    cbn in Hrec. destruct (word_found _ _ _); [| done].
    injection Hrec as <- <-. split; [| done].
    unfold filtered_out in Hfo. destruct exts as [|x exts']; [done |].
    apply negb_false_iff, bool_decide_eq_true in Hfo. done.
Qed.

End SkippedFiles.

Section UndecodableFiles.
Import Scanner.

(** C7: a file whose read fails with a decode error changes neither the
    match list nor any counter, and prints nothing (no error line); the
    scan goes on, and the whole search returns the same match list, ends
    with the same statistics and prints the same lines as on the working
    copy without the undecodable files. *)
Theorem decode_error_is_skipped_silently (word : string)
    (allowed : option (list string)) (ignore_case : bool) :
  (∀ st root rel file,
     collected_files
       (scan_file word allowed ignore_case root rel st (file, UnicodeDecodeError))
     = collected_files st
     ∧ extension_stats
         (scan_file word allowed ignore_case root rel st (file, UnicodeDecodeError))
       = extension_stats st
     ∧ printed
         (trace (scan_file word allowed ignore_case root rel st
                   (file, UnicodeDecodeError)))
       = printed (trace st))
  ∧ (∀ repo_path tree,
       (search_word_in_repo repo_path tree word allowed ignore_case).1
       = (search_word_in_repo repo_path
            (strip_tree (λ _ data, is_decode_error data) tree)
            word allowed ignore_case).1
       ∧ printed (search_word_in_repo repo_path tree word allowed ignore_case).2
         = printed (search_word_in_repo repo_path
                      (strip_tree (λ _ data, is_decode_error data) tree)
                      word allowed ignore_case).2
       ∧ extension_stats (scan_repo repo_path tree word allowed ignore_case)
         = extension_stats
             (scan_repo repo_path
                (strip_tree (λ _ data, is_decode_error data) tree)
                word allowed ignore_case)).
Proof.
  split.
  - intros st root rel file.
    pose proof (scan_one_undecodable word allowed ignore_case st
                  {| vf_root := root; vf_rel := rel; vf_name := file;
                     vf_data := UnicodeDecodeError |} eq_refl) as H.
    unfold observable, scan_one in H. cbn [vf_root vf_rel vf_name vf_data] in H.
    injection H as H1 H2 H3. exact (conj H1 (conj H2 H3)).
  - intros repo_path tree.
    assert (observable (scan_repo repo_path tree word allowed ignore_case)
            = observable
                (scan_repo repo_path
                   (strip_tree (λ _ data, is_decode_error data) tree)
                   word allowed ignore_case)) as Hobs.
    { rewrite !scan_repo_flat, os_walk_strip. symmetry.
      by apply scan_all_undecodable. }
    destruct (search_result_observable word allowed ignore_case _ _ _ _ Hobs)
      as [H1 H2].
    split; [done |]. split; [done |].
    unfold observable in Hobs. by injection Hobs.
Qed.

(** C9: with the empty search term, every file that passes the extension
    filter and is read successfully is appended to the match list, in
    case-sensitive and in case-insensitive mode alike; the match list of a
    whole search is then the list of all counted files, in the order of the
    walk. *)
Theorem empty_term_matches_every_read_file (allowed : option (list string))
    (ignore_case : bool) :
  (∀ st root rel file content,
     filtered_out allowed (PyStr.lower (OsPath.splitext_ext file)) = false →
     collected_files
       (scan_file "" allowed ignore_case root rel st (file, ReadOk content))
     = collected_files st ++ [(relpath rel file, content)])
  ∧ (∀ repo_path tree,
       (search_word_in_repo repo_path tree "" allowed ignore_case).1
       = omap (λ f, if admitted allowed f
                    then (λ content, (vf_path f, content)) <$> vf_text f
                    else None)
           (visited_files (os_walk keep_dir repo_path tree))).
Proof.
  assert (∀ content, word_found "" ignore_case content = true) as Hfound.
  { intros content. unfold word_found.
    destruct ignore_case; cbn [PyStr.lower]; apply contains_empty. }
  split.
  - intros st root rel file content Hf. unfold scan_file.
    by rewrite Hf, Hfound.
  - intros repo_path tree. unfold search_word_in_repo. cbn [fst].
    rewrite scan_repo_flat, scan_all_collected. cbn [initial_state collected_files app].
    apply list_omap_ext, Forall2_same_length_lookup_2; [done |].
    intros i f f' Hi Hi'. assert (f' = f) as -> by congruence.
    unfold match_record, matched. destruct (admitted allowed f); [| done].
    cbn [andb]. destruct (vf_text f) as [content|]; [| done].
    by rewrite Hfound.
Qed.

End UndecodableFiles.

(** ** Output writer *)

Section WriterFacts.
Import Writer.

Lemma write_matches (ms : list (string * string)) (out : string) :
  fold_left write_match ms out = out +:+ blocks ms.
Proof.
  revert out. induction ms as [|[rel_path content] ms IH]; intros out.
  - cbn. by rewrite append_nil_r.
  - cbn [fold_left blocks]. rewrite IH. unfold write_match, block. cbn [fst snd].
    by rewrite !append_assoc.
Qed.

(** C6: the output file holds exactly the blocks of the matches, in the
    order of the match list; for the single match of path [a/b.txt] and
    content [hello world] that is the text
    [<filename>a/b.txt</filename>], newline, [hello world], newline; for an
    empty match list the file exists and is empty.  No other file of the
    disk changes. *)
Theorem write_output_format (collected_files : list (string * string))
    (output_file : string) (disk : gmap string string) :
  (write_output collected_files output_file disk).1 !! output_file
  = Some (blocks collected_files)
  ∧ (write_output [("a/b.txt", "hello world")] output_file disk).1 !! output_file
    = Some ("<filename>a/b.txt</filename>" +:+ nl +:+ "hello world" +:+ nl)
  ∧ (write_output [] output_file disk).1 !! output_file = Some ""
  ∧ (∀ other, other ≠ output_file →
       (write_output collected_files output_file disk).1 !! other = disk !! other).
Proof.
  unfold write_output. cbn [fst]. repeat split.
  - by rewrite lookup_insert_eq, write_matches.
  - by rewrite lookup_insert_eq.
  - by rewrite lookup_insert_eq.
  - intros other Hne. by rewrite lookup_insert_ne.
Qed.

End WriterFacts.

(** ** Every file is met once *)

Section PathFacts.
Import Scanner.

Lemma valid_name_cons (a : ascii) (s : string) :
  valid_name (String a s) = true → a ≠ "/"%char ∧ valid_name s = true.
Proof.
  unfold valid_name. cbn [PyStr.contains PyStr.startswith].
  destruct (Ascii.eqb_spec "/"%char a) as [<-|Hne]; cbn; [done |].
  intros H. split; [congruence | done].
Qed.

Lemma split_valid (s : string) :
  valid_name s = true → PyStr.split "/" s = [s].
Proof.
  induction s as [|a s IH]; [done |].
  intros [Ha Hs]%valid_name_cons. cbn [PyStr.split].
  destruct (Ascii.eqb_spec a "/"%char) as [->|_]; [done |].
  by rewrite IH.
Qed.

Lemma split_valid_sep (s t : string) :
  valid_name s = true →
  PyStr.split "/" (s +:+ "/" +:+ t) = s :: PyStr.split "/" t.
Proof.
  induction s as [|a s IH]; [done |].
  intros [Ha Hs]%valid_name_cons.
  change (String a s +:+ "/" +:+ t) with (String a (s +:+ "/" +:+ t)).
  cbn [PyStr.split].
  destruct (Ascii.eqb_spec a "/"%char) as [->|_]; [done |].
  by rewrite (IH Hs).
Qed.

(** Splitting a joined path gives the names back. *)
Lemma split_concat (names : list string) :
  names ≠ [] → forallb valid_name names = true →
  PyStr.split "/" (String.concat "/" names) = names.
Proof.
  induction names as [|x [|y names] IH]; [done | |].
  - intros _ [Hx _]%andb_prop. cbn. by apply split_valid.
  - intros _ [Hx Hr]%andb_prop.
    change (String.concat "/" (x :: y :: names))
      with (x +:+ "/" +:+ String.concat "/" (y :: names)).
    rewrite split_valid_sep by done. f_equal. by apply IH.
Qed.

Lemma relpath_inj (k1 k2 : list string) :
  k1 ≠ [] → k2 ≠ [] →
  forallb valid_name k1 = true → forallb valid_name k2 = true →
  String.concat "/" k1 = String.concat "/" k2 → k1 = k2.
Proof.
  intros H1 H2 V1 V2 Heq.
  rewrite <- (split_concat k1), <- (split_concat k2) by done. by rewrite Heq.
Qed.

End PathFacts.

Section WalkOnce.
Import Scanner.
Variable keep : string → bool.

Lemma flat_map_bind {A B} (g : A → list B) (l : list A) : flat_map g l = l ≫= g.
Proof. induction l as [|x l IH]; [done |]. cbn. by rewrite IH. Qed.

Lemma fmap_bind {A B C} (h : B → C) (g : A → list B) (l : list A) :
  h <$> (l ≫= g) = l ≫= (λ x, h <$> g x).
Proof.
  induction l as [|x l IH]; [done |]. csimpl. by rewrite fmap_app, IH.
Qed.

Lemma NoDup_fmap_elem_inj {A B} (h : A → B) (l : list A) (x y : A) :
  NoDup (h <$> l) → x ∈ l → y ∈ l → h x = h y → x = y.
Proof.
  induction l as [|a l IH]; [by intros _ ?%elem_of_nil |].
  csimpl. intros [Ha Hl]%NoDup_cons [->|Hx]%elem_of_cons [->|Hy]%elem_of_cons Heq.
  - done.
  - exfalso. apply Ha. rewrite Heq. by apply list_elem_of_fmap_2.
  - exfalso. apply Ha. rewrite <- Heq. by apply list_elem_of_fmap_2.
  - by apply IH.
Qed.

Lemma elem_of_visit_files (top : string) (rel : list string) (entries : list node)
    (f : visited_file) :
  f ∈ visit_files {| root := top; rel := rel; files_here := files_of entries |}
  ↔ ∃ name data, File name data ∈ entries
                 ∧ f = {| vf_root := top; vf_rel := rel;
                          vf_name := name; vf_data := data |}.
Proof.
  unfold visit_files, files_of. cbn [root Scanner.rel files_here].
  rewrite list_elem_of_fmap. setoid_rewrite list_elem_of_omap. split.
  - intros ([name data] & -> & n & Hn & Hsome).
    destruct n as [name' data'|d sub]; [| done].
    injection Hsome as -> ->. by exists name, data.
  - intros (name & data & Hin & ->). exists (name, data). split; [done |].
    by exists (File name data).
Qed.

Lemma visited_files_walk_dir (top : string) (rel : list string) (entries : list node) :
  visited_files (walk_dir (walk_node keep) top rel entries)
  = visit_files {| root := top; rel := rel; files_here := files_of entries |}
    ++ (entries ≫= λ n, visited_files (walk_node keep top rel n)).
Proof.
  unfold walk_dir. rewrite visited_files_cons. f_equal.
  induction entries as [|n entries IH]; [done |].
  cbn [flat_map]. csimpl. by rewrite visited_files_app, IH.
Qed.

Lemma forallb_elem_of {A} (p : A → bool) (l : list A) (x : A) :
  forallb p l = true → x ∈ l → p x = true.
Proof.
  intros Hall Hx. rewrite forallb_forall in Hall. by apply Hall, list_elem_of_In.
Qed.

(** Below a directory entry every visited file carries the names that lead
    to it, all of them valid. *)
Lemma walk_node_keys (n : node) :
  wf_node n = true →
  ∀ top rel f,
    f ∈ visited_files (walk_node keep top rel n) →
    ∃ rest, vf_rel f = rel ++ node_name n :: rest
            ∧ forallb valid_name (node_name n :: rest) = true
            ∧ valid_name (vf_name f) = true.
Proof.
  induction n as [name data|d sub IH] using node_ind; intros Hwf top rel f Hf.
  - by apply elem_of_nil in Hf.
  - cbn [walk_node] in Hf. destruct (keep d); [| by apply elem_of_nil in Hf].
    cbn [wf_node] in Hwf.
    apply andb_prop in Hwf as [[Hd _]%andb_prop Hall].
    rewrite visited_files_walk_dir in Hf.
    apply elem_of_app in Hf as [Hf|Hf].
    + apply elem_of_visit_files in Hf as (name & data & Hin & ->).
      exists []. cbn [vf_rel vf_name node_name forallb].
      split; [done |]. split; [by rewrite Hd |].
      apply (forallb_elem_of _ _ _ Hall Hin).
    + apply list_elem_of_bind in Hf as (n & Hf & Hn).
      rewrite Forall_forall in IH.
      destruct (IH n Hn (forallb_elem_of _ _ _ Hall Hn) _ _ _ Hf)
        as (rest & Hrel & Hvalid & Hname).
      exists (node_name n :: rest). cbn [node_name].
      split; [by rewrite Hrel, <- app_assoc |].
      split; [| done]. cbn [forallb]. cbn [forallb] in Hvalid.
      by rewrite Hd, Hvalid.
Qed.

Lemma direct_files_NoDup (top : string) (rel : list string) (entries : list node) :
  NoDup (node_name <$> entries) →
  NoDup (vf_key <$> visit_files {| root := top; rel := rel;
                                   files_here := files_of entries |}).
Proof.
  induction entries as [|n entries IH]; [intros _; constructor |].
  csimpl. intros [Hn Hl]%NoDup_cons.
  destruct n as [name data|d sub]; [| by apply IH].
  change (visit_files {| root := top; rel := rel;
                         files_here := files_of (File name data :: entries) |})
    with ({| vf_root := top; vf_rel := rel; vf_name := name; vf_data := data |}
          :: visit_files {| root := top; rel := rel;
                            files_here := files_of entries |}).
  csimpl. apply NoDup_cons. split; [| by apply IH].
  intros (f & Hkey & Hf)%list_elem_of_fmap.
  apply elem_of_visit_files in Hf as (name' & data' & Hin & ->).
  unfold vf_key in Hkey. cbn [vf_rel vf_name] in Hkey.
  apply app_inv_head in Hkey. injection Hkey as ->.
  apply Hn. cbn [node_name].
  by apply (list_elem_of_fmap_2 node_name _ (File name' data')).
Qed.

Lemma walk_dir_NoDup (entries : list node) :
  NoDup (node_name <$> entries) →
  forallb wf_node entries = true →
  Forall (λ n, wf_node n = true →
               ∀ top rel, NoDup (vf_key <$> visited_files (walk_node keep top rel n)))
         entries →
  ∀ top rel,
    NoDup (vf_key <$> visited_files (walk_dir (walk_node keep) top rel entries)).
Proof.
  intros Hnames Hwf HIH top rel.
  rewrite visited_files_walk_dir, fmap_app. apply NoDup_app. split_and!.
  - by apply direct_files_NoDup.
  - intros key (f1 & -> & Hf1)%list_elem_of_fmap (f2 & Hkey & Hf2)%list_elem_of_fmap.
    apply elem_of_visit_files in Hf1 as (name & data & _ & ->).
    apply list_elem_of_bind in Hf2 as (n & Hf2 & Hn).
    destruct (walk_node_keys n (forallb_elem_of _ _ _ Hwf Hn) _ _ _ Hf2)
      as (rest & Hrel & _).
    unfold vf_key in Hkey. rewrite Hrel in Hkey. cbn [vf_rel vf_name] in Hkey.
    apply (f_equal length) in Hkey. rewrite !length_app in Hkey.
    cbn [length] in Hkey. lia.
  - rewrite fmap_bind. apply NoDup_bind.
    + intros n1 n2 key Hn1 Hn2 (f1 & -> & Hf1)%list_elem_of_fmap
        (f2 & Hkey & Hf2)%list_elem_of_fmap.
      destruct (walk_node_keys n1 (forallb_elem_of _ _ _ Hwf Hn1) _ _ _ Hf1)
        as (rest1 & Hrel1 & _).
      destruct (walk_node_keys n2 (forallb_elem_of _ _ _ Hwf Hn2) _ _ _ Hf2)
        as (rest2 & Hrel2 & _).
      unfold vf_key in Hkey. rewrite Hrel1, Hrel2, <- !app_assoc in Hkey.
      apply app_inv_head in Hkey. injection Hkey as Hname _.
      by apply (NoDup_fmap_elem_inj node_name entries).
    + intros n Hn. rewrite Forall_forall in HIH.
      apply HIH; [done |]. by apply (forallb_elem_of _ _ _ Hwf).
    + by apply NoDup_fmap_1 in Hnames.
Qed.

Lemma walk_node_NoDup (n : node) :
  wf_node n = true →
  ∀ top rel, NoDup (vf_key <$> visited_files (walk_node keep top rel n)).
Proof.
  induction n as [name data|d sub IH] using node_ind; intros Hwf top rel.
  - constructor.
  - cbn [walk_node]. destruct (keep d); [| constructor].
    cbn [wf_node] in Hwf.
    apply andb_prop in Hwf as [[_ Hnd%bool_decide_eq_true]%andb_prop Hall].
    by apply walk_dir_NoDup.
Qed.

(** In a well-formed working copy the walk meets every file once: the
    name sequences of the visited files are pairwise different. *)
Lemma os_walk_keys_NoDup (top : string) (tree : list node) :
  wf_tree tree = true →
  NoDup (vf_key <$> visited_files (os_walk keep top tree)).
Proof.
  unfold wf_tree, os_walk. intros [Hnd%bool_decide_eq_true Hall]%andb_prop.
  apply walk_dir_NoDup; [done | done |].
  apply Forall_forall. intros n _. apply walk_node_NoDup.
Qed.

Lemma os_walk_keys_valid (top : string) (tree : list node) (f : visited_file) :
  wf_tree tree = true →
  f ∈ visited_files (os_walk keep top tree) →
  forallb valid_name (vf_key f) = true.
Proof.
  unfold wf_tree, os_walk. intros [_ Hall]%andb_prop Hf.
  rewrite visited_files_walk_dir in Hf. apply elem_of_app in Hf as [Hf|Hf].
  - apply elem_of_visit_files in Hf as (name & data & Hin & ->).
    unfold vf_key. cbn [vf_rel vf_name app forallb].
    pose proof (forallb_elem_of _ _ _ Hall Hin) as Hv. cbn [wf_node] in Hv.
    by rewrite Hv.
  - apply list_elem_of_bind in Hf as (n & Hf & Hn).
    destruct (walk_node_keys n (forallb_elem_of _ _ _ Hall Hn) _ _ _ Hf)
      as (rest & Hrel & Hvalid & Hname).
    unfold vf_key. rewrite Hrel, forallb_app. cbn [app]. rewrite Hvalid.
    cbn [forallb]. by rewrite Hname.
Qed.

(** Hence the relative paths of the visited files are pairwise different. *)
Lemma os_walk_paths_NoDup (top : string) (tree : list node) :
  wf_tree tree = true →
  NoDup (vf_path <$> visited_files (os_walk keep top tree)).
Proof.
  intros Hwf.
  assert (vf_path <$> visited_files (os_walk keep top tree)
          = String.concat "/" <$> (vf_key <$> visited_files (os_walk keep top tree)))
    as -> by (by rewrite <- list_fmap_compose).
  apply NoDup_fmap_2_strong; [| by apply os_walk_keys_NoDup].
  intros k1 k2 (f1 & -> & Hf1)%list_elem_of_fmap (f2 & -> & Hf2)%list_elem_of_fmap.
  apply relpath_inj.
  - unfold vf_key. by destruct (vf_rel f1).
  - unfold vf_key. by destruct (vf_rel f2).
  - by apply (os_walk_keys_valid top tree).
  - by apply (os_walk_keys_valid top tree).
Qed.

End WalkOnce.

Section OnceEach.
Import Scanner.
Variables (word : string) (allowed : option (list string)) (ignore_case : bool).

Lemma NoDup_fmap_filter {A B} (h : A → B) (P : A → Prop) `{!∀ x, Decision (P x)}
    (l : list A) :
  NoDup (h <$> l) → NoDup (h <$> filter P l).
Proof.
  induction l as [|x l IH]; [done |].
  csimpl. intros [Hx Hl]%NoDup_cons. rewrite filter_cons.
  destruct (decide (P x)); [| by apply IH].
  csimpl. apply NoDup_cons. split; [| by apply IH].
  intros (y & Hy & Hin)%list_elem_of_fmap.
  apply list_elem_of_filter in Hin as [_ Hin].
  apply Hx. rewrite Hy. by apply list_elem_of_fmap_2.
Qed.

Lemma counted_texts_length (e : string) (fs : list visited_file) :
  length (counted_texts allowed e fs)
  = length (filter (λ f, counted allowed f = true ∧ vf_extension f = e) fs).
Proof.
  induction fs as [|f fs IH]; [done |].
  rewrite counted_texts_cons, filter_cons. unfold counted.
  destruct (vf_text f) as [content|] eqn:Ht.
  - destruct (admitted allowed f); cbn [andb].
    + case_bool_decide as He.
      * rewrite decide_True; [by cbn [length]; rewrite IH |].
        split; [| done]. apply bool_decide_eq_true. by eexists.
      * rewrite decide_False; [done |]. by intros [_ ?].
    + rewrite decide_False; [done |]. by intros [? _].
  - rewrite decide_False; [done |]. intros [H _].
    apply andb_prop in H as [_ H%bool_decide_eq_true]. by destruct H.
Qed.

Lemma matches_are_matched_files (fs : list visited_file) :
  omap (match_record word allowed ignore_case) fs
  = (λ f, (vf_path f, default "" (vf_text f)))
    <$> filter (λ f, matched word allowed ignore_case f = true) fs.
Proof.
  induction fs as [|f fs IH]; [done |].
  assert (omap (match_record word allowed ignore_case) (f :: fs)
          = match match_record word allowed ignore_case f with
            | Some r => r :: omap (match_record word allowed ignore_case) fs
            | None => omap (match_record word allowed ignore_case) fs
            end) as -> by done.
  rewrite filter_cons, IH. unfold match_record.
  destruct (matched word allowed ignore_case f) eqn:Hm.
  - rewrite decide_True by done. csimpl.
    unfold matched in Hm. destruct (vf_text f); [done |].
    by rewrite andb_false_r in Hm.
  - by rewrite decide_False.
Qed.

(** C8: in the scan of a well-formed working copy the walk meets every
    file, identified by its relative path, once.  The [files] counter of an
    extension is the number of visited files with that extension that
    passed the extension filter and were read as text, and every such file
    has its extension in the table: a file is counted once if it passed the
    filter and was read, and not at all otherwise.  The match list holds,
    in the order of the walk, one record for every visited file that
    moreover contains the search term under the case rule, and no other
    record; no path occurs twice in it. *)
Theorem each_file_counted_and_matched_at_most_once (repo_path : string)
    (tree : list node) :
  wf_tree tree = true →
  NoDup (vf_path <$> visited_files (os_walk keep_dir repo_path tree))
  ∧ (∀ e s,
       extension_stats (scan_repo repo_path tree word allowed ignore_case) !! e
       = Some s →
       files s
       = Z.of_nat
           (length (filter (λ f, counted allowed f = true ∧ vf_extension f = e)
                      (visited_files (os_walk keep_dir repo_path tree)))))
  ∧ (∀ f,
       f ∈ visited_files (os_walk keep_dir repo_path tree) →
       counted allowed f = true →
       is_Some (extension_stats (scan_repo repo_path tree word allowed ignore_case)
                !! vf_extension f))
  ∧ (search_word_in_repo repo_path tree word allowed ignore_case).1
    = (λ f, (vf_path f, default "" (vf_text f)))
      <$> filter (λ f, matched word allowed ignore_case f = true)
            (visited_files (os_walk keep_dir repo_path tree))
  ∧ NoDup (search_word_in_repo repo_path tree word allowed ignore_case).1.*1.
Proof.
  intros Hwf.
  pose proof (os_walk_paths_NoDup keep_dir repo_path tree Hwf) as Hpaths.
  assert ((search_word_in_repo repo_path tree word allowed ignore_case).1
          = (λ f, (vf_path f, default "" (vf_text f)))
            <$> filter (λ f, matched word allowed ignore_case f = true)
                  (visited_files (os_walk keep_dir repo_path tree))) as Hlist.
  { unfold search_word_in_repo. cbn [fst].
    rewrite scan_repo_flat, scan_all_collected. cbn [initial_state collected_files app].
    apply matches_are_matched_files. }
  split_and!; [done | | | done |].
  - intros e s. rewrite scan_repo_stats, <- counted_texts_length.
    destruct (counted_texts allowed e _) as [|c texts]; [done |].
    by intros [= <-].
  - intros f Hf Hc. rewrite scan_repo_stats.
    destruct (counted_texts allowed (vf_extension f) _) as [|c texts] eqn:Ht;
      [| by eexists].
    exfalso. apply (f_equal length) in Ht. rewrite counted_texts_length in Ht.
    assert (f ∈ filter (λ f0, counted allowed f0 = true
                             ∧ vf_extension f0 = vf_extension f)
                  (visited_files (os_walk keep_dir repo_path tree))) as Hin
      by (by apply list_elem_of_filter).
    revert Ht Hin. generalize (filter (λ f0, counted allowed f0 = true
                                             ∧ vf_extension f0 = vf_extension f)
                                  (visited_files (os_walk keep_dir repo_path tree))).
    intros [|x l] Ht Hin; [by apply elem_of_nil in Hin | done].
  - rewrite Hlist, <- list_fmap_compose.
    by apply (NoDup_fmap_filter vf_path).
Qed.

End OnceEach.

(** * Worked examples *)

Section Witnesses.
Import Acquisition Scanner Writer.

(** C2 on an existing cache directory with the branch [dev] and a git that
    succeeds: fetch, checkout, pull. *)
Lemma get_repo_dir_commands_witness :
  path_exists Sample.env_existing (cache_path Sample.repo_url) = true
  ∧ commands (run_get_repo_dir Sample.env_existing Sample.repo_url (Some "dev")).1
    = [["git"; "-C"; "./repo_cache/repo"; "fetch"];
       ["git"; "-C"; "./repo_cache/repo"; "checkout"; "dev"];
       ["git"; "-C"; "./repo_cache/repo"; "pull"]].
Proof.
  split; [reflexivity |].
  destruct (get_repo_dir_commands Sample.env_existing Sample.repo_url (Some "dev"))
    as [_ H].
  destruct (H eq_refl) as [H1 _].
  destruct (H1 "dev" eq_refl) as [_ H2]; [discriminate |].
  exact (H2 eq_refl eq_refl).
Defined.

(** C3 on the sample working copy: the two readable Python files have two
    lines and one line. *)
Lemma lines_counter_is_sum_of_line_counts_witness :
  extension_stats (scan_repo Sample.repo_path Sample.tree "hello" None false) !! ".py"
  = Some {| files := 2; lines := 3 |}
  ∧ lines {| files := 2; lines := 3 |}
    = sum_line_counts
        (texts_with_extension ".py"
           (visited_files (os_walk keep_dir Sample.repo_path Sample.tree))).
Proof.
  assert (extension_stats (scan_repo Sample.repo_path Sample.tree "hello" None false)
          !! ".py" = Some {| files := 2; lines := 3 |}) as H
    by (vm_compute; reflexivity).
  split; [exact H |].
  exact (proj2 (proj2 (lines_counter_is_sum_of_line_counts
                         "hello" None false Sample.repo_path Sample.tree))
           ".py" _ H).
Defined.

(** C4 in case-insensitive mode: [hello] is found in [Hello world], and the
    record keeps the capital letter. *)
Lemma appended_iff_substring_witness :
  filtered_out None (PyStr.lower (OsPath.splitext_ext "README.md")) = false
  ∧ collected_files
      (scan_file "hello" None true Sample.repo_path []
         (initial_state "hello" None true Sample.repo_path)
         ("README.md", ReadOk "Hello world"))
    = [("README.md", "Hello world")].
Proof.
  split; [reflexivity |].
  destruct (appended_iff_substring "hello" None true
              (initial_state "hello" None true Sample.repo_path)
              Sample.repo_path [] "README.md" "Hello world" eq_refl) as [H _].
  destruct (H eq_refl) as [[_ Happ] | [Hnot _]]; [exact Happ |].
  exfalso. apply Hnot. by exists "", " world".
Defined.

(** C5 with the allow-list [.py]: the search on the sample working copy is the
    search on the working copy without the other files. *)
Lemma filtered_extension_is_skipped_witness :
  [".py"] ≠ []
  ∧ search_word_in_repo Sample.repo_path Sample.tree "hello" (Some [".py"]) true
    = search_word_in_repo Sample.repo_path
        (strip_tree
           (λ name _, bool_decide (PyStr.lower (OsPath.splitext_ext name) ∉ [".py"]))
           Sample.tree)
        "hello" (Some [".py"]) true.
Proof.
  assert ([".py"] ≠ []) as Hne by discriminate.
  split; [exact Hne |].
  exact (proj1 (proj2 (filtered_extension_is_skipped "hello" [".py"] true Hne))
           Sample.repo_path Sample.tree).
Defined.

(** C6: writing the output leaves another file of the disk alone. *)
Lemma write_output_format_witness :
  "notes.txt" ≠ "output.txt"
  ∧ (write_output [("a/b.txt", "hello world")] "output.txt"
       {["notes.txt" := "keep"]}).1 !! "notes.txt"
    = ({["notes.txt" := "keep"]} : gmap string string) !! "notes.txt".
Proof.
  assert ("notes.txt" ≠ "output.txt") as Hne by discriminate.
  split; [exact Hne |].
  exact (proj2 (proj2 (proj2 (write_output_format [("a/b.txt", "hello world")]
                                "output.txt" {["notes.txt" := "keep"]})))
           "notes.txt" Hne).
Defined.

(** C8 on the sample working copy, which is well formed. *)
Lemma each_file_counted_and_matched_at_most_once_witness :
  wf_tree Sample.tree = true
  ∧ NoDup (search_word_in_repo Sample.repo_path Sample.tree "hello" None true).1.*1.
Proof.
  assert (wf_tree Sample.tree = true) as Hwf by reflexivity.
  split; [exact Hwf |].
  exact (proj2 (proj2 (proj2 (proj2
           (each_file_counted_and_matched_at_most_once
              "hello" None true Sample.repo_path Sample.tree Hwf))))).
Defined.

(** C9: the empty file [Util.PY] matches the empty term. *)
Lemma empty_term_matches_every_read_file_witness :
  filtered_out (Some [".py"]) (PyStr.lower (OsPath.splitext_ext "Util.PY")) = false
  ∧ collected_files
      (scan_file "" (Some [".py"]) false "./repo_cache/repo/src" ["src"]
         (initial_state "" (Some [".py"]) false Sample.repo_path)
         ("Util.PY", ReadOk ""))
    = [("src/Util.PY", "")].
Proof.
  split; [reflexivity |].
  exact (proj1 (empty_term_matches_every_read_file (Some [".py"]) false)
           (initial_state "" (Some [".py"]) false Sample.repo_path)
           "./repo_cache/repo/src" ["src"] "Util.PY" "" eq_refl).
Defined.

(** C10 on the sample working copy, for the extension [.py]. *)
Lemma counters_positive_and_increasing_witness :
  extension_stats (scan_repo Sample.repo_path Sample.tree "hello" None false) !! ".py"
  = Some {| files := 2; lines := 3 |}
  ∧ 1 ≤ files {| files := 2; lines := 3 |}
  ∧ files {| files := 2; lines := 3 |} ≤ lines {| files := 2; lines := 3 |}.
Proof.
  assert (extension_stats (scan_repo Sample.repo_path Sample.tree "hello" None false)
          !! ".py" = Some {| files := 2; lines := 3 |}) as H
    by (vm_compute; reflexivity).
  split; [exact H |].
  exact (proj1 (counters_positive_and_increasing
                  "hello" None false Sample.repo_path Sample.tree) ".py" _ H).
Defined.

End Witnesses.

Section Examples.
Import Acquisition Scanner Writer.

Example replace_suffix : PyStr.replace ".git" "" "repo.git" = "repo".
Proof. reflexivity. Qed.

Example replace_empty_old : PyStr.replace "" "-" "abc" = "-a-b-c-".
Proof. reflexivity. Qed.

Example replace_overlap : PyStr.replace "aa" "b" "aaaaa" = "bba".
Proof. reflexivity. Qed.

Example split_url :
  PyStr.split "/" "https://github.com/user/repo.git"
  = ["https:"; ""; "github.com"; "user"; "repo.git"].
Proof. reflexivity. Qed.

Example splitext_examples :
  map OsPath.splitext_ext ["a.tar.gz"; ".bashrc"; "Makefile"; "a."; "..x"; "x..y"; "...";  ".a.b"]
  = [".gz"; ""; ""; "."; ""; ".y"; ""; ".b"].
Proof. reflexivity. Qed.

Example join_examples :
  (OsPath.join "./repo_cache" "repo", OsPath.join "./repo_cache" "", OsPath.join "./repo_cache/" "f")
  = ("./repo_cache/repo", "./repo_cache/", "./repo_cache/f").
Proof. reflexivity. Qed.

Example lower_example : PyStr.lower "Hello World_42" = "hello world_42".
Proof. reflexivity. Qed.

Example repo_name_plain :
  repo_name "https://github.com/user/repo.git" = Some "repo".
Proof. reflexivity. Qed.

Example get_repo_dir_clone_branch :
  run_get_repo_dir
    {| path_exists := λ _, false; returncode := λ _, 0 |}
    "https://github.com/user/repo.git" (Some "dev")
  = ([Makedirs "./repo_cache";
      Print "Cloning repository https://github.com/user/repo.git to ./repo_cache/repo";
      Run ["git"; "clone"; "https://github.com/user/repo.git";
                       "./repo_cache/repo"; "--branch"; "dev"]],
     Returned "./repo_cache/repo").
Proof. reflexivity. Qed.

Example get_repo_dir_fetch_fails :
  run_get_repo_dir
    {| path_exists := λ _, true; returncode := λ _, 128 |}
    "https://github.com/user/repo.git" (Some "dev")
  = ([Makedirs "./repo_cache";
      Print "Using existing repository at ./repo_cache/repo";
      Print "Checking out branch: dev";
      Run ["git"; "-C"; "./repo_cache/repo"; "fetch"]],
     Raised
       (CalledProcessError ["git"; "-C"; "./repo_cache/repo"; "fetch"] 128)).
Proof. reflexivity. Qed.

Example repo_name_trailing_slash :
  repo_name "https://github.com/user/repo/" = Some ""
  ∧ cache_path "https://github.com/user/repo/" = "./repo_cache/".
Proof. split; reflexivity. Qed.

Example get_repo_dir_existing_no_branch :
  run_get_repo_dir Sample.env_existing Sample.repo_url None
  = ([Makedirs "./repo_cache";
      Print "Using existing repository at ./repo_cache/repo"],
     Returned "./repo_cache/repo").
Proof. reflexivity. Qed.

Example get_repo_dir_empty_branch :
  commands (run_get_repo_dir Sample.env_absent Sample.repo_url (Some "")).1
  = [["git"; "clone"; "https://github.com/user/repo.git"; "./repo_cache/repo"]].
Proof. reflexivity. Qed.

Example walk_of_sample :
  vf_path <$> visited_files (os_walk keep_dir Sample.repo_path Sample.tree)
  = ["README.md"; "logo.png"; "src/main.py"; "src/Util.PY"; "src/locked.py"].
Proof. reflexivity. Qed.

Example search_sample_case_sensitive :
  (search_word_in_repo Sample.repo_path Sample.tree "hello" None false).1
  = [("src/main.py", "print('hello')" +:+ nl +:+ "x = 1")]
  ∧ printed (search_word_in_repo Sample.repo_path Sample.tree "hello" None false).2
    = ["Searching for 'hello'  in all text files in repository at ./repo_cache/repo";
       "Found in: src/main.py";
       "Error reading ./repo_cache/repo/src/locked.py: [Errno 13] Permission denied";
       "Statistics for searched files:";
       ".md: 1 files, 2 lines";
       ".py: 2 files, 3 lines";
       "Total: 3 files, 5 lines";
       "Total files with 'hello': 1"].
Proof. split; vm_compute; reflexivity. Qed.

Example search_sample_allow_list_opens :
  opened (search_word_in_repo Sample.repo_path Sample.tree "hello" (Some [".py"]) false).2
  = ["./repo_cache/repo/src/main.py";
     "./repo_cache/repo/src/Util.PY";
     "./repo_cache/repo/src/locked.py"].
Proof. vm_compute; reflexivity. Qed.

Example search_sample_ignore_case :
  (search_word_in_repo Sample.repo_path Sample.tree "hello" None true).1
  = [("README.md", "Hello world" +:+ nl);
     ("src/main.py", "print('hello')" +:+ nl +:+ "x = 1")].
Proof. vm_compute; reflexivity. Qed.

Example search_sample_nothing_counted :
  printed (search_word_in_repo Sample.repo_path Sample.tree "hello" (Some [".rs"]) false).2
  = ["Searching for 'hello'  in files with extensions .rs in repository at ./repo_cache/repo";
     "No files found matching the search criteria.";
     "Total files with 'hello': 0"].
Proof. vm_compute; reflexivity. Qed.

Example write_output_two_matches :
  (write_output [("a.txt", "one"); ("d/b.txt", "two" +:+ nl)] "output.txt" ∅).1
  !! "output.txt"
  = Some ("<filename>a.txt</filename>" +:+ nl +:+ "one" +:+ nl
          +:+ "<filename>d/b.txt</filename>" +:+ nl +:+ "two" +:+ nl +:+ nl).
Proof. vm_compute; reflexivity. Qed.

End Examples.

(** * Further properties *)

(** ** How [get_repo_dir] ends *)

Section AcquisitionOutcome.
Import Acquisition.


End AcquisitionOutcome.

(** ** The cache directory of a URL *)

Section CacheDirectory.
Import Acquisition Scanner.

Lemma valid_name_String (a : ascii) (s : string) :
  valid_name (String a s) = negb (Ascii.eqb "/" a) && valid_name s.
Proof.
  unfold valid_name. cbn [PyStr.contains PyStr.startswith].
  by destruct (Ascii.eqb "/" a).
Qed.

Lemma valid_name_app (s t : string) :
  valid_name (s +:+ t) = valid_name s && valid_name t.
Proof.
  induction s as [|a s IH]; [done |].
  cbn [String.append]. by rewrite !valid_name_String, IH, andb_assoc.
Qed.

Lemma last_cons_cons {A} (x y : A) (l : list A) : last (x :: y :: l) = last (y :: l).
Proof. done. Qed.

Lemma split_sep_two (c : ascii) (p s : string) :
  ∃ x y l, PyStr.split c (p +:+ String c s) = x :: y :: l.
Proof.
  induction p as [|a p (x & y & l & IH)]; cbn [String.append PyStr.split].
  - rewrite Ascii.eqb_refl.
    destruct (PyStr.split c s) as [|y l] eqn:Hs; [by apply split_nonempty in Hs |].
    by exists "", y, l.
  - rewrite IH. destruct (Ascii.eqb a c); eauto.
Qed.

(** The last piece of a split is what follows the last separator. *)
Lemma split_last_after_sep (c : ascii) (p s : string) :
  PyStr.index_last (PyStr.split c (p +:+ String c s))
  = PyStr.index_last (PyStr.split c s).
Proof.
  unfold PyStr.index_last.
  induction p as [|a p IH]; cbn [String.append PyStr.split].
  - rewrite Ascii.eqb_refl.
    destruct (PyStr.split c s) as [|y l] eqn:Hs; [by apply split_nonempty in Hs |].
    done.
  - destruct (split_sep_two c p s) as (x & y & l & Hsp). rewrite Hsp in IH |- *.
    destruct (Ascii.eqb a c); by rewrite !last_cons_cons in *.
Qed.

Lemma startswith_git_boundary (t : string) :
  PyStr.startswith ".git" (t +:+ ".git") = true →
  t = "" ∨ PyStr.startswith ".git" t = true.
Proof.
  destruct t as [|a [|b [|c [|d t]]]]; cbn [String.append PyStr.startswith];
    repeat match goal with
      | |- context [Ascii.eqb ?x ?y] =>
          destruct (Ascii.eqb_spec x y) as [<-|?]; cbn; try done
      end; auto.
Qed.

(** A trailing [.git] is the only thing [replace] removes from a name in
    which [.git] does not occur elsewhere. *)
Lemma replace_git_suffix (seg : string) :
  PyStr.contains ".git" seg = false →
  PyStr.replace ".git" "" (seg +:+ ".git") = seg.
Proof.
  unfold PyStr.replace. induction seg as [|a seg IH]; [done |].
  cbn [PyStr.contains]. intros [Hs Hc]%orb_false_elim.
  change (String a seg +:+ ".git") with (String a (seg +:+ ".git")).
  cbn [PyStr.replace_from].
  destruct (PyStr.startswith ".git" (String a (seg +:+ ".git"))) eqn:Hb.
  - apply (startswith_git_boundary (String a seg)) in Hb as [Hb|Hb]; congruence.
  - by rewrite (IH Hc).
Qed.

(** The directory name depends on the final path segment of the URL only,
    and a URL with and without the [.git] suffix has the same cache
    directory: for a segment [seg] without separator in which [.git] does not
    occur, both [prefix/seg.git] and [prefix/seg] give the name [seg] and the
    cache path [./repo_cache/seg], whatever the prefix. *)
Theorem cache_path_of_final_segment (prefix seg : string) :
  valid_name seg = true →
  PyStr.contains ".git" seg = false →
  repo_name (prefix +:+ "/" +:+ seg +:+ ".git") = Some seg
  ∧ repo_name (prefix +:+ "/" +:+ seg) = Some seg
  ∧ cache_path (prefix +:+ "/" +:+ seg +:+ ".git") = "./repo_cache/" +:+ seg
  ∧ cache_path (prefix +:+ "/" +:+ seg) = "./repo_cache/" +:+ seg.
Proof.
  intros Hvalid Hgit.
  assert (repo_name (prefix +:+ "/" +:+ seg +:+ ".git") = Some seg) as H1.
  { unfold repo_name.
    change (prefix +:+ "/" +:+ seg +:+ ".git")
      with (prefix +:+ String "/" (seg +:+ ".git")).
    rewrite split_last_after_sep, split_valid by (by rewrite valid_name_app, Hvalid).
    cbn. by rewrite replace_git_suffix. }
  assert (repo_name (prefix +:+ "/" +:+ seg) = Some seg) as H2.
  { unfold repo_name.
    change (prefix +:+ "/" +:+ seg) with (prefix +:+ String "/" seg).
    rewrite split_last_after_sep, split_valid by done.
    cbn. by rewrite replace_absent. }
  assert (OsPath.join "./repo_cache" seg = "./repo_cache/" +:+ seg) as Hjoin.
  { unfold OsPath.join.
    assert (PyStr.startswith "/" seg = false) as ->; [| done].
    destruct seg as [|a seg]; [done |].
    rewrite valid_name_String in Hvalid. cbn [PyStr.startswith].
    by destruct (Ascii.eqb "/" a). }
  unfold cache_path. rewrite H1, H2. cbn [default from_option id]. by rewrite Hjoin.
Qed.

Lemma replace_from_valid (old s : string) (skip : nat) :
  valid_name s = true → valid_name (PyStr.replace_from old "" skip s) = true.
Proof.
  revert skip. induction s as [|a s IH]; intros skip.
  - intros _. cbn. by destruct old.
  - rewrite valid_name_String. intros [Ha Hs]%andb_prop.
    cbn [PyStr.replace_from]. destruct skip as [|k]; [| by apply IH].
    destruct (PyStr.startswith old (String a s)).
    + destruct old; cbn [String.append]; [| by apply IH].
      rewrite valid_name_String, Ha. by apply IH.
    + rewrite valid_name_String, Ha. by apply IH.
Qed.

Lemma split_pieces_valid (s : string) :
  Forall (λ piece, valid_name piece = true) (PyStr.split "/" s).
Proof.
  induction s as [|a s IH]; [by repeat constructor |].
  cbn [PyStr.split]. destruct (Ascii.eqb_spec a "/"%char) as [->|Hne].
  - by constructor.
  - destruct (PyStr.split "/" s) as [|piece rest] eqn:Hsp;
      [by apply split_nonempty in Hsp |].
    inversion_clear IH as [|?? Hp Hr]. constructor; [| done].
    rewrite valid_name_String, Hp.
    by destruct (Ascii.eqb_spec "/"%char a) as [<-|?].
Qed.

(** Whatever the URL, the directory name holds no path separator: the
    working copy is an entry of [./repo_cache] itself, and the cache path is
    [./repo_cache/] followed by that name. *)
Theorem repo_name_has_no_separator (repo_url : string) :
  ∃ name,
    repo_name repo_url = Some name
    ∧ valid_name name = true
    ∧ cache_path repo_url = "./repo_cache/" +:+ name.
Proof.
  unfold cache_path, repo_name.
  destruct (index_last_split "/" repo_url) as [seg Hseg]. rewrite Hseg.
  assert (valid_name seg = true) as Hvalid.
  { pose proof (split_pieces_valid repo_url) as Hall.
    rewrite Forall_forall in Hall. apply Hall.
    unfold PyStr.index_last in Hseg. by apply last_Some_elem_of. }
  exists (PyStr.replace ".git" "" seg). split; [done |].
  assert (valid_name (PyStr.replace ".git" "" seg) = true) as Hname
    by (by apply replace_from_valid).
  split; [done |]. cbn [fmap option_fmap option_map default from_option id].
  unfold OsPath.join.
  assert (PyStr.startswith "/" (PyStr.replace ".git" "" seg) = false) as ->; [| done].
  destruct (PyStr.replace ".git" "" seg) as [|a name]; [done |].
  rewrite valid_name_String in Hname. cbn [PyStr.startswith].
  by destruct (Ascii.eqb "/" a).
Qed.

End CacheDirectory.

(** ** What the walk leaves out *)

Section GitDirectory.
Import Scanner.

Lemma walk_node_kept (keep : string → bool) (n : node) :
  ∀ top rel f,
    f ∈ visited_files (walk_node keep top rel n) →
    ∃ rest, vf_rel f = rel ++ rest ∧ Forall (λ d, keep d = true) rest.
Proof.
  induction n as [name data|d sub IH] using node_ind; intros top rel f Hf.
  - by apply elem_of_nil in Hf.
  - cbn [walk_node] in Hf. destruct (keep d) eqn:Hd; [| by apply elem_of_nil in Hf].
    rewrite visited_files_walk_dir in Hf. apply elem_of_app in Hf as [Hf|Hf].
    + apply elem_of_visit_files in Hf as (name & data & _ & ->).
      exists [d]. split; [done |]. by repeat constructor.
    + apply list_elem_of_bind in Hf as (n & Hf & Hn).
      rewrite Forall_forall in IH.
      destruct (IH n Hn _ _ _ Hf) as (rest & Hrel & Hkept).
      exists (d :: rest). split; [by rewrite Hrel, <- app_assoc |].
      by constructor.
Qed.

Lemma os_walk_kept (keep : string → bool) (top : string) (tree : list node)
    (f : visited_file) :
  f ∈ visited_files (os_walk keep top tree) →
  Forall (λ d, keep d = true) (vf_rel f).
Proof.
  unfold os_walk. rewrite visited_files_walk_dir. intros [Hf|Hf]%elem_of_app.
  - apply elem_of_visit_files in Hf as (name & data & _ & ->). constructor.
  - apply list_elem_of_bind in Hf as (n & Hf & _).
    destruct (walk_node_kept keep n _ _ _ Hf) as (rest & -> & Hkept). done.
Qed.

(** The walk never enters a directory named [.git], at any depth: no visited
    file has [.git] among the directories that lead to it, so no such file
    is opened, counted or put in the match list. *)
Theorem git_directories_are_never_entered (repo_path : string) (tree : list node)
    (word : string) (allowed : option (list string)) (ignore_case : bool) :
  (∀ f, f ∈ visited_files (os_walk keep_dir repo_path tree) → ".git" ∉ vf_rel f)
  ∧ (∀ p c,
       (p, c) ∈ (search_word_in_repo repo_path tree word allowed ignore_case).1 →
       ∃ f, f ∈ visited_files (os_walk keep_dir repo_path tree)
            ∧ (".git" ∉ vf_rel f) ∧ vf_path f = p ∧ vf_data f = ReadOk c).
Proof.
  assert (∀ f, f ∈ visited_files (os_walk keep_dir repo_path tree) →
               ".git" ∉ vf_rel f) as Hgit.
  { intros f Hf Hin. apply os_walk_kept in Hf. rewrite Forall_forall in Hf.
    by specialize (Hf _ Hin). }
  split; [exact Hgit |].
  intros p c. unfold search_word_in_repo. cbn [fst].
  rewrite scan_repo_flat, scan_all_collected. cbn [initial_state collected_files app].
  rewrite list_elem_of_omap. intros (f & Hf & Hrec). exists f.
  split; [done |]. split; [by apply Hgit |].
  unfold match_record in Hrec. destruct (matched _ _ _ f); [| done].
  unfold vf_text in Hrec. destruct (vf_data f) as [content| |err]; try done.
  by injection Hrec as <- <-.
Qed.

End GitDirectory.

(** ** Statistics and the search term *)

Section StatisticsFacts.
Import Scanner ScanNotions.

(** The statistics do not depend on the search term or on the case rule:
    they tally the files that were read, not the files that match. *)
Theorem statistics_do_not_depend_on_the_term (repo_path : string) (tree : list node)
    (allowed : option (list string)) (word1 word2 : string) (ic1 ic2 : bool) :
  extension_stats (scan_repo repo_path tree word1 allowed ic1)
  = extension_stats (scan_repo repo_path tree word2 allowed ic2).
Proof. apply map_eq. intros e. by rewrite !scan_repo_stats. Qed.

Lemma chr_lower_idemp (c : ascii) : PyStr.chr_lower (PyStr.chr_lower c) = PyStr.chr_lower c.
Proof. by destruct c as [[] [] [] [] [] [] [] []]. Qed.

Lemma lower_idemp (s : string) : PyStr.lower (PyStr.lower s) = PyStr.lower s.
Proof.
  induction s as [|a s IH]; [done |]. cbn [PyStr.lower].
  by rewrite chr_lower_idemp, IH.
Qed.

Lemma ext_from_dot (seen : bool) (p e : string) :
  OsPath.ext_from seen p = Some e → PyStr.startswith "." e = true.
Proof.
  revert seen. induction p as [|a p IH]; intros seen; [done |].
  cbn [OsPath.ext_from].
  destruct (OsPath.ext_from (seen || negb (Ascii.eqb a ".")) p) eqn:Hrec.
  - intros [= <-]. by eapply IH.
  - destruct (Ascii.eqb_spec a "."%char) as [->|_]; [| done].
    destruct seen; [| done]. by intros [= <-].
Qed.

(** The extension of a file name is empty or starts with a dot, and it is
    in lower case. *)
Lemma extension_shape (name : string) :
  PyStr.lower (PyStr.lower (OsPath.splitext_ext name))
  = PyStr.lower (OsPath.splitext_ext name)
  ∧ (PyStr.lower (OsPath.splitext_ext name) = ""
     ∨ PyStr.startswith "." (PyStr.lower (OsPath.splitext_ext name)) = true).
Proof.
  split; [apply lower_idemp |].
  unfold OsPath.splitext_ext.
  destruct (OsPath.ext_from false name) as [e|] eqn:He; [| by left].
  right. apply ext_from_dot in He. cbn [default from_option id].
  destruct e as [|a e]; [done |]. cbn [PyStr.startswith] in He.
  destruct (Ascii.eqb_spec "."%char a) as [<-|]; done.
Qed.

Lemma counted_texts_elem (allowed : option (list string)) (e c : string)
    (fs : list visited_file) :
  c ∈ counted_texts allowed e fs →
  ∃ f, f ∈ fs ∧ admitted allowed f = true ∧ vf_extension f = e ∧ vf_text f = Some c.
Proof.
  unfold counted_texts. rewrite list_elem_of_omap. intros (f & Hf & Hc).
  exists f. split; [done |].
  destruct (admitted allowed f); [| done]. case_bool_decide; done.
Qed.

(** Every key of the statistics is the extension of a file that was read:
    it is in lower case, and it is empty or starts with a dot.  Files whose
    extensions differ in letter case only share one entry. *)
Theorem statistics_keys_are_lower_case_extensions (repo_path : string)
    (tree : list node) (word : string) (allowed : option (list string))
    (ignore_case : bool) (e : string) :
  is_Some (extension_stats (scan_repo repo_path tree word allowed ignore_case) !! e) →
  PyStr.lower e = e
  ∧ (e = "" ∨ PyStr.startswith "." e = true)
  ∧ ∃ f, f ∈ visited_files (os_walk keep_dir repo_path tree)
         ∧ PyStr.lower (OsPath.splitext_ext (vf_name f)) = e
         ∧ is_Some (vf_text f).
Proof.
  rewrite scan_repo_stats.
  destruct (counted_texts allowed e _) as [|c texts] eqn:Hc; [by intros [? ?] |].
  intros _.
  destruct (counted_texts_elem allowed e c
              (visited_files (os_walk keep_dir repo_path tree)))
    as (f & Hf & _ & Hext & Htext); [rewrite Hc; by left |].
  unfold vf_extension in Hext. subst e.
  destruct (extension_shape (vf_name f)) as [H1 H2].
  split; [done |]. split; [done |]. exists f. by rewrite Htext.
Qed.

End StatisticsFacts.

(** ** Files that cannot be read, and files that are opened *)

Section ReadErrors.
Import Scanner ScanNotions.
Variables (word : string) (allowed : option (list string)) (ignore_case : bool).

Lemma omap_filter_irrelevant {A B} (g : A → option B) (P : A → Prop)
    `{!∀ x, Decision (P x)} (l : list A) :
  (∀ x, ¬ P x → g x = None) → omap g (filter P l) = omap g l.
Proof.
  intros Hnone. induction l as [|x l IH]; [done |].
  assert (omap g (x :: l)
          = match g x with Some y => y :: omap g l | None => omap g l end) as -> by done.
  rewrite filter_cons. destruct (decide (P x)) as [HP|HP].
  - assert (omap g (x :: filter P l)
            = match g x with Some y => y :: omap g (filter P l)
              | None => omap g (filter P l) end) as -> by done.
    by rewrite IH.
  - by rewrite IH, (Hnone x HP).
Qed.

Lemma match_record_unreadable (f : visited_file) :
  vf_text f = None → match_record word allowed ignore_case f = None.
Proof.
  unfold match_record, matched. intros ->. by rewrite andb_false_r.
Qed.

Lemma opened_app (tr1 tr2 : list event) :
  opened (tr1 ++ tr2) = opened tr1 ++ opened tr2.
Proof. apply omap_app. Qed.

Lemma scan_one_opened (st : scan_state) (f : visited_file) :
  opened (trace (scan_one word allowed ignore_case st f))
  = opened (trace st) ++ (if admitted allowed f then [file_path f] else []).
Proof.
  unfold scan_one, scan_file, admitted, vf_extension, file_path.
  destruct (filtered_out _ _); cbn [negb]; [by rewrite app_nil_r |].
  destruct (vf_data f) as [content| |err]; [destruct (word_found _ _ _) | |];
    cbn [trace emit]; rewrite ?opened_app; cbn; by rewrite ?app_nil_r.
Qed.

Lemma scan_all_opened (fs : list visited_file) (st : scan_state) :
  opened (trace (fold_left (scan_one word allowed ignore_case) fs st))
  = opened (trace st) ++ (file_path <$> filter (λ f, admitted allowed f = true) fs).
Proof.
  revert st. induction fs as [|f fs IH]; intros st; [by rewrite app_nil_r |].
  cbn [fold_left]. rewrite IH, scan_one_opened, filter_cons, <- app_assoc.
  f_equal. by destruct (admitted allowed f).
Qed.

Lemma opened_report (d : gmap string ext_stats) : opened (report d) = [].
Proof.
  unfold report. destruct (bool_decide (d = ∅)); [done |].
  rewrite !opened_app. cbn. rewrite app_nil_r.
  induction (sorted_keys d) as [|e keys IH]; [done |]. done.
Qed.

Lemma search_opened (repo_path : string) (tree : list node) :
  opened (search_word_in_repo repo_path tree word allowed ignore_case).2
  = file_path <$> filter (λ f, admitted allowed f = true)
                    (visited_files (os_walk keep_dir repo_path tree)).
Proof.
  unfold search_word_in_repo. cbn [snd].
  rewrite !opened_app, opened_report, scan_repo_flat, scan_all_opened.
  cbn. by rewrite app_nil_r.
Qed.

(** A file whose read fails with an error other than a decode error is
    reported with one line [Error reading PATH: MESSAGE] and is otherwise
    skipped: no counter changes and the match list does not grow.  The scan
    goes on, and the whole search returns the same match list and ends with
    the same statistics as on the working copy without the files that cannot
    be read. *)
Theorem read_error_is_reported_and_skipped :
  (∀ st root rel file e,
     filtered_out allowed (PyStr.lower (OsPath.splitext_ext file)) = false →
     collected_files
       (scan_file word allowed ignore_case root rel st (file, ReadError e))
     = collected_files st
     ∧ extension_stats
         (scan_file word allowed ignore_case root rel st (file, ReadError e))
       = extension_stats st
     ∧ printed
         (trace (scan_file word allowed ignore_case root rel st (file, ReadError e)))
       = printed (trace st)
         ++ ["Error reading " +:+ OsPath.join root file +:+ ": " +:+ e])
  ∧ (∀ repo_path tree,
       (search_word_in_repo repo_path tree word allowed ignore_case).1
       = (search_word_in_repo repo_path
            (strip_tree (λ _ data, is_read_error data) tree)
            word allowed ignore_case).1
       ∧ extension_stats (scan_repo repo_path tree word allowed ignore_case)
         = extension_stats
             (scan_repo repo_path
                (strip_tree (λ _ data, is_read_error data) tree)
                word allowed ignore_case)).
Proof.
  split.
  - intros st root rel file e Hf. unfold scan_file. rewrite Hf.
    cbn [collected_files extension_stats trace emit].
    split; [done |]. split; [done |].
    rewrite !printed_app. change (printed [OpenRead (OsPath.join root file)]) with (@nil string).
    by rewrite app_nil_r.
  - intros repo_path tree.
    assert (∀ f, ¬ is_read_error (vf_data f) = false → vf_text f = None) as Hnone.
    { intros f Hf. unfold vf_text. by destruct (vf_data f). }
    split.
    + unfold search_word_in_repo. cbn [fst].
      rewrite !scan_repo_flat, !scan_all_collected, os_walk_strip.
      cbn [initial_state collected_files app]. symmetry.
      apply omap_filter_irrelevant.
      intros f Hf. by apply match_record_unreadable, Hnone.
    + apply map_eq. intros ext. rewrite !scan_repo_stats, os_walk_strip.
      unfold counted_texts at 2.
      rewrite omap_filter_irrelevant; [done |].
      intros f Hf. rewrite (Hnone f Hf). by destruct (_ && _).
Qed.

(** The scanner opens exactly the files that pass the extension filter, each
    one once and in the order of the walk, whether the read then succeeds or
    not; it opens no other file. *)
Theorem admitted_files_are_opened_once (repo_path : string) (tree : list node) :
  opened (search_word_in_repo repo_path tree word allowed ignore_case).2
  = (λ f, OsPath.join (vf_root f) (vf_name f))
    <$> filter (λ f, filtered_out allowed
                       (PyStr.lower (OsPath.splitext_ext (vf_name f))) = false)
          (visited_files (os_walk keep_dir repo_path tree)).
Proof.
  rewrite search_opened. unfold file_path. f_equal.
  apply list_filter_iff. intros f. unfold admitted, vf_extension.
  by destruct (filtered_out _ _).
Qed.

End ReadErrors.

(** ** The report *)

Section ReportFacts.
Import Scanner ScanNotions.
Variables (word : string) (allowed : option (list string)) (ignore_case : bool).

Lemma fold_left_add (l : list Z) (a : Z) : fold_left Z.add l a = a + sum l.
Proof.
  unfold sum. revert a. induction l as [|x l IH]; intros a; cbn [fold_left]; [lia |].
  rewrite (IH (a + x)), (IH (0 + x)). lia.
Qed.

Lemma sum_cons (x : Z) (l : list Z) : sum (x :: l) = x + sum l.
Proof. unfold sum at 1. cbn [fold_left]. rewrite fold_left_add. lia. Qed.

Lemma sum_Permutation (l1 l2 : list Z) : l1 ≡ₚ l2 → sum l1 = sum l2.
Proof.
  induction 1 as [|x l1 l2 _ IH|x y l|l1 l2 l3 _ IH1 _ IH2]; [done | | | congruence].
  - by rewrite !sum_cons, IH.
  - rewrite !sum_cons. lia.
Qed.

Lemma sum_values_insert (g : ext_stats → Z) (d : gmap string ext_stats)
    (e : string) (v : ext_stats) :
  sum (g <$> (map_to_list (<[e := v]> d)).*2)
  = g v + sum (g <$> (map_to_list d).*2)
    - match d !! e with Some s => g s | None => 0 end.
Proof.
  destruct (d !! e) as [s|] eqn:He.
  - rewrite <- (insert_delete_eq d), <- (sum_Permutation _ _
      (fmap_Permutation g _ _ (fmap_Permutation snd _ _ (map_to_list_delete d e s He)))).
    rewrite (sum_Permutation _ _
      (fmap_Permutation g _ _ (fmap_Permutation snd _ _
         (map_to_list_insert (delete e d) e v (lookup_delete_eq d e))))).
    csimpl. rewrite !sum_cons. lia.
  - rewrite (sum_Permutation _ _
      (fmap_Permutation g _ _ (fmap_Permutation snd _ _ (map_to_list_insert d e v He)))).
    csimpl. rewrite sum_cons. lia.
Qed.

Lemma scan_one_stats_eq (st : scan_state) (f : visited_file) :
  extension_stats (scan_one word allowed ignore_case st f)
  = match vf_text f with
    | Some content =>
        if admitted allowed f
        then <[vf_extension f :=
                 {| files := files (default default_factory
                                      (extension_stats st !! vf_extension f)) + 1;
                    lines := lines (default default_factory
                                      (extension_stats st !! vf_extension f))
                             + num_lines content |}]> (extension_stats st)
        else extension_stats st
    | None => extension_stats st
    end.
Proof.
  apply map_eq. intros e. rewrite scan_one_stats.
  destruct (vf_text f) as [content|]; [| done].
  destruct (admitted allowed f); [| done]. cbn [andb].
  case_bool_decide as He.
  - subst e. by rewrite lookup_insert_eq.
  - by rewrite lookup_insert_ne.
Qed.

Lemma all_counted_texts_cons (f : visited_file) (fs : list visited_file) :
  all_counted_texts allowed (f :: fs)
  = match (if admitted allowed f then vf_text f else None) with
    | Some content => content :: all_counted_texts allowed fs
    | None => all_counted_texts allowed fs
    end.
Proof. done. Qed.

(** The two totals after the files [fs]. *)
Lemma scan_all_totals (fs : list visited_file) (st : scan_state) :
  total_files (extension_stats (fold_left (scan_one word allowed ignore_case) fs st))
  = total_files (extension_stats st)
    + Z.of_nat (length (all_counted_texts allowed fs))
  ∧ total_lines (extension_stats (fold_left (scan_one word allowed ignore_case) fs st))
    = total_lines (extension_stats st) + sum_line_counts (all_counted_texts allowed fs).
Proof.
  revert st. induction fs as [|f fs IH]; intros st; [cbn; lia |].
  cbn [fold_left]. destruct (IH (scan_one word allowed ignore_case st f)) as [-> ->].
  rewrite all_counted_texts_cons, scan_one_stats_eq.
  destruct (vf_text f) as [content|]; [| by destruct (admitted allowed f)].
  destruct (admitted allowed f); [| done].
  unfold total_files, total_lines. rewrite !sum_values_insert.
  cbn [length sum_line_counts files lines]. unfold num_lines.
  destruct (extension_stats st !! vf_extension f) as [s|];
    cbn [default from_option id default_factory files lines]; lia.
Qed.

Lemma scan_repo_totals (repo_path : string) (tree : list node) :
  total_files (extension_stats (scan_repo repo_path tree word allowed ignore_case))
  = Z.of_nat (length (all_counted_texts allowed
                        (visited_files (os_walk keep_dir repo_path tree))))
  ∧ total_lines (extension_stats (scan_repo repo_path tree word allowed ignore_case))
    = sum_line_counts (all_counted_texts allowed
                         (visited_files (os_walk keep_dir repo_path tree))).
Proof.
  rewrite scan_repo_flat.
  destruct (scan_all_totals (visited_files (os_walk keep_dir repo_path tree))
              (initial_state word allowed ignore_case repo_path)) as [-> ->].
  cbn [initial_state extension_stats]. unfold total_files, total_lines.
  rewrite map_to_list_empty. cbn. split; lia.
Qed.

Lemma all_counted_texts_length (fs : list visited_file) :
  length (all_counted_texts allowed fs)
  = length (filter (λ f, counted allowed f = true) fs).
Proof.
  induction fs as [|f fs IH]; [done |].
  rewrite all_counted_texts_cons, filter_cons. unfold counted.
  destruct (admitted allowed f); cbn [andb].
  - destruct (vf_text f) as [content|].
    + rewrite decide_True; [by cbn [length]; rewrite IH |].
      apply bool_decide_eq_true. by eexists.
    + rewrite decide_False; [done |].
      intros H%bool_decide_eq_true. by destruct H.
  - by rewrite decide_False.
Qed.

End ReportFacts.

Section ReportTheorems.
Import Scanner ScanNotions.
Variables (word : string) (allowed : option (list string)) (ignore_case : bool).

Lemma report_nonempty (d : gmap string ext_stats) :
  d ≠ ∅ →
  report d
  = [Print "Statistics for searched files:"]
    ++ (stat_line d <$> sorted_keys d) ++ [total_line d].
Proof. intros Hd. unfold report. by rewrite bool_decide_false. Qed.

Lemma stats_empty_iff (repo_path : string) (tree : list node) :
  extension_stats (scan_repo repo_path tree word allowed ignore_case) = ∅
  ↔ filter (λ f, counted allowed f = true)
      (visited_files (os_walk keep_dir repo_path tree)) = [].
Proof.
  split.
  - intros Hd.
    destruct (scan_repo_totals word allowed ignore_case repo_path tree) as [Hf _].
    rewrite Hd, all_counted_texts_length in Hf.
    unfold total_files in Hf. rewrite map_to_list_empty in Hf. cbn in Hf.
    destruct (filter _ _); [done | cbn in Hf; lia].
  - intros Hnone. apply map_eq. intros e. rewrite lookup_empty, scan_repo_stats.
    destruct (counted_texts allowed e _) as [|c texts] eqn:Hc; [done |].
    destruct (counted_texts_elem allowed e c
                (visited_files (os_walk keep_dir repo_path tree)))
      as (f & Hf & Hadm & _ & Htext); [rewrite Hc; by left |].
    assert (f ∈ filter (λ f, counted allowed f = true)
                  (visited_files (os_walk keep_dir repo_path tree))) as Hin.
    { apply list_elem_of_filter. split; [| done]. unfold counted.
      rewrite Hadm, Htext. cbn [andb]. apply bool_decide_eq_true. by eexists. }
    rewrite Hnone in Hin. by apply elem_of_nil in Hin.
Qed.

(** The report is the single line [No files found matching the search
    criteria.] exactly when no file was counted, that is when no visited file
    passed the extension filter and could be read; whether a file contains
    the search term plays no part. *)
Theorem no_files_message_iff_nothing_counted (repo_path : string) (tree : list node) :
  report (extension_stats (scan_repo repo_path tree word allowed ignore_case))
  = [Print "No files found matching the search criteria."]
  ↔ filter (λ f, counted allowed f = true)
      (visited_files (os_walk keep_dir repo_path tree)) = [].
Proof.
  rewrite <- stats_empty_iff. unfold report. case_bool_decide as Hd.
  - done.
  - split; [| done]. cbn. discriminate.
Qed.

(** The totals of the report: the total of files is the number of visited
    files that passed the filter and were read, the total of lines is the sum
    of their line counts; when at least one file was counted, the last line
    of the report is [Total: N files, L lines] with these two numbers. *)
Theorem report_totals_count_the_read_files (repo_path : string) (tree : list node) :
  total_files (extension_stats (scan_repo repo_path tree word allowed ignore_case))
  = Z.of_nat (length (filter (λ f, counted allowed f = true)
                        (visited_files (os_walk keep_dir repo_path tree))))
  ∧ total_lines (extension_stats (scan_repo repo_path tree word allowed ignore_case))
    = sum_line_counts (all_counted_texts allowed
                         (visited_files (os_walk keep_dir repo_path tree)))
  ∧ (extension_stats (scan_repo repo_path tree word allowed ignore_case) ≠ ∅ →
     last (report (extension_stats (scan_repo repo_path tree word allowed ignore_case)))
     = Some (Print ("Total: "
                    +:+ pretty (Z.of_nat
                                  (length (filter (λ f, counted allowed f = true)
                                             (visited_files
                                                (os_walk keep_dir repo_path tree)))))
                    +:+ " files, "
                    +:+ pretty (sum_line_counts
                                  (all_counted_texts allowed
                                     (visited_files (os_walk keep_dir repo_path tree))))
                    +:+ " lines"))).
Proof.
  destruct (scan_repo_totals word allowed ignore_case repo_path tree) as [Hf Hl].
  rewrite all_counted_texts_length in Hf.
  split; [done |]. split; [done |].
  intros Hd. rewrite report_nonempty by done.
  rewrite (app_assoc _ _ [_]), last_snoc. unfold total_line. by rewrite Hf, Hl.
Qed.

Lemma matches_length_le (fs : list visited_file) :
  (length (omap (match_record word allowed ignore_case) fs)
   ≤ length (all_counted_texts allowed fs))%nat.
Proof.
  induction fs as [|f fs IH]; [done |].
  assert (omap (match_record word allowed ignore_case) (f :: fs)
          = match match_record word allowed ignore_case f with
            | Some r => r :: omap (match_record word allowed ignore_case) fs
            | None => omap (match_record word allowed ignore_case) fs
            end) as -> by done.
  rewrite all_counted_texts_cons.
  destruct (match_record word allowed ignore_case f) as [r|] eqn:Hm.
  - assert (∃ c, (if admitted allowed f then vf_text f else None) = Some c)
      as [c ->].
    { unfold match_record, matched in Hm.
      destruct (admitted allowed f); [| done].
      destruct (vf_text f) as [content|]; [by eexists | done]. }
    cbn [length]. lia.
  - destruct (if admitted allowed f then vf_text f else None); cbn [length]; lia.
Qed.

(** The number of matching files that the last printed line gives is at
    most the total of files of the report: only counted files can match. *)
Theorem matches_are_at_most_the_counted_files (repo_path : string) (tree : list node) :
  Z.of_nat (length (search_word_in_repo repo_path tree word allowed ignore_case).1)
  ≤ total_files (extension_stats (scan_repo repo_path tree word allowed ignore_case))
  ∧ last (search_word_in_repo repo_path tree word allowed ignore_case).2
    = Some (Print ("Total files with '" +:+ word +:+ "': "
                   +:+ pretty (Z.of_nat
                                 (length (search_word_in_repo repo_path tree word
                                            allowed ignore_case).1)))).
Proof.
  split.
  - destruct (scan_repo_totals word allowed ignore_case repo_path tree) as [-> _].
    unfold search_word_in_repo. cbn [fst].
    rewrite scan_repo_flat, scan_all_collected. cbn [initial_state collected_files app].
    apply inj_le, matches_length_le.
  - unfold search_word_in_repo. cbn [fst snd].
    by rewrite (app_assoc _ _ [_]), last_snoc.
Qed.

(** The lines of the report between the heading and the totals are one line
    per extension of the table, in ascending order of the extension, no
    extension twice. *)
Theorem report_lists_each_extension_once_in_order (d : gmap string ext_stats) :
  d ≠ ∅ →
  report d
  = [Print "Statistics for searched files:"]
    ++ (stat_line d <$> sorted_keys d) ++ [total_line d]
  ∧ Sorted String.le (sorted_keys d)
  ∧ NoDup (sorted_keys d)
  ∧ (∀ e, e ∈ sorted_keys d ↔ is_Some (d !! e)).
Proof.
  intros Hd. split; [by apply report_nonempty |].
  unfold sorted_keys. split; [apply Sorted_merge_sort, _ |].
  split.
  - rewrite merge_sort_Permutation. apply NoDup_fst_map_to_list.
  - intros e. rewrite merge_sort_Permutation, list_elem_of_fmap. split.
    + intros ([k v] & -> & Hin). apply elem_of_map_to_list in Hin. by eexists.
    + intros [v Hv]. exists (e, v). split; [done |]. by apply elem_of_map_to_list.
Qed.

(** An allow-list whose entries are not empty and do not start with a dot
    (as [py] instead of [.py]) admits no file at all: nothing is opened,
    nothing is counted and nothing matches. *)
Theorem allow_list_without_dots_admits_nothing (exts : list string)
    (repo_path : string) (tree : list node) :
  exts ≠ [] →
  Forall (λ e, e ≠ "" ∧ PyStr.startswith "." e = false) exts →
  (search_word_in_repo repo_path tree word (Some exts) ignore_case).1 = []
  ∧ opened (search_word_in_repo repo_path tree word (Some exts) ignore_case).2 = []
  ∧ extension_stats (scan_repo repo_path tree word (Some exts) ignore_case) = ∅.
Proof.
  intros Hne Hexts.
  assert (∀ f, admitted (Some exts) f = false) as Hnone.
  { intros f. unfold admitted. apply negb_false_iff, filtered_out_not_elem; [done |].
    intros Hin. rewrite Forall_forall in Hexts.
    destruct (Hexts _ Hin) as [Hnonempty Hdot].
    destruct (extension_shape (vf_name f)) as [_ [H|H]]; unfold vf_extension in *;
      congruence. }
  assert (filter (λ f, admitted (Some exts) f = true)
            (visited_files (os_walk keep_dir repo_path tree)) = []) as Hfilter.
  { induction (visited_files _) as [|f fs IH]; [done |].
    rewrite filter_cons, decide_False; [done |]. by rewrite Hnone. }
  split; [| split].
  - unfold search_word_in_repo. cbn [fst].
    rewrite scan_repo_flat, scan_all_collected. cbn [initial_state collected_files app].
    assert (∀ fs, omap (match_record word (Some exts) ignore_case) fs = []) as Hall;
      [| apply Hall].
    intros fs. induction fs as [|f fs IH]; [done |].
    assert (omap (match_record word (Some exts) ignore_case) (f :: fs)
            = match match_record word (Some exts) ignore_case f with
              | Some r => r :: omap (match_record word (Some exts) ignore_case) fs
              | None => omap (match_record word (Some exts) ignore_case) fs
              end) as -> by done.
    assert (match_record word (Some exts) ignore_case f = None) as ->; [| done].
    unfold match_record, matched. by rewrite Hnone.
  - by rewrite search_opened, Hfilter.
  - apply map_eq. intros e. rewrite lookup_empty, scan_repo_stats.
    destruct (counted_texts (Some exts) e _) as [|c texts] eqn:Hc; [done |].
    destruct (counted_texts_elem (Some exts) e c
                (visited_files (os_walk keep_dir repo_path tree)))
      as (f & _ & Hadm & _); [rewrite Hc; by left |].
    by rewrite Hnone in Hadm.
Qed.

End ReportTheorems.

(** ** The output file *)

Section OutputFacts.
Import Writer.

Lemma blocks_app (ms1 ms2 : list (string * string)) :
  blocks (ms1 ++ ms2) = blocks ms1 +:+ blocks ms2.
Proof.
  induction ms1 as [|m ms1 IH]; [done |].
  cbn [app blocks]. by rewrite IH, append_assoc.
Qed.

(** The output file depends on the match list only: what the file held
    before is discarded, and the output for two match lists one after the
    other is the output for the first followed by the output for the
    second. *)
Theorem output_depends_on_the_matches_only (ms1 ms2 : list (string * string))
    (output_file old : string) (disk : gmap string string) :
  (write_output ms1 output_file (<[output_file := old]> disk)).1
  = (write_output ms1 output_file disk).1
  ∧ ∃ c1 c2,
      (write_output ms1 output_file disk).1 !! output_file = Some c1
      ∧ (write_output ms2 output_file disk).1 !! output_file = Some c2
      ∧ (write_output (ms1 ++ ms2) output_file disk).1 !! output_file
        = Some (c1 +:+ c2).
Proof.
  unfold write_output. cbn [fst]. split; [by rewrite insert_insert_eq |].
  exists (blocks ms1), (blocks ms2).
  rewrite !lookup_insert_eq, !write_matches, blocks_app. done.
Qed.

(** Nothing is escaped: a single match whose content holds a line
    [<filename>P</filename>] gives the same output file as two matches, so
    the match list cannot be recovered from the output. *)
Theorem output_is_ambiguous (p1 c1 p2 c2 output_file : string)
    (disk : gmap string string) :
  (write_output
     [(p1, c1 +:+ nl +:+ "<filename>" +:+ p2 +:+ "</filename>" +:+ nl +:+ c2)]
     output_file disk).1
  = (write_output [(p1, c1); (p2, c2)] output_file disk).1.
Proof.
  unfold write_output. cbn [fst]. f_equal.
  rewrite !write_matches. cbn [blocks]. unfold block. cbn [fst snd].
  rewrite append_nil_r.
  change ("<filename>" +:+ p1 +:+ "</filename>" +:+ nl
          +:+ (c1 +:+ nl +:+ "<filename>" +:+ p2 +:+ "</filename>" +:+ nl +:+ c2)
          +:+ nl)
    with ("<filename>"
          +:+ (p1 +:+ "</filename>" +:+ nl
               +:+ (c1 +:+ nl +:+ "<filename>" +:+ p2 +:+ "</filename>" +:+ nl +:+ c2)
               +:+ nl)).
  change (("<filename>" +:+ p1 +:+ "</filename>" +:+ nl +:+ c1 +:+ nl)
          +:+ "<filename>" +:+ p2 +:+ "</filename>" +:+ nl +:+ c2 +:+ nl +:+ "")
    with ("<filename>"
          +:+ ((p1 +:+ "</filename>" +:+ nl +:+ c1 +:+ nl)
               +:+ "<filename>" +:+ p2 +:+ "</filename>" +:+ nl +:+ c2 +:+ nl +:+ "")).
  f_equal. by rewrite !append_assoc, append_nil_r.
Qed.

End OutputFacts.

(** ** The whole run *)

Section MainFacts.
Import Acquisition Scanner Writer ScanNotions Main.

Lemma truthy_lower (s : string) : PyStr.truthy (PyStr.lower s) = PyStr.truthy s.
Proof. by destruct s. Qed.

Lemma chr_lower_comma (a : ascii) :
  Ascii.eqb (PyStr.chr_lower a) ","%char = Ascii.eqb a ","%char.
Proof. by destruct a as [[] [] [] [] [] [] [] []]. Qed.

(** Lower-casing commutes with the split at commas. *)
Lemma split_lower (s : string) :
  PyStr.split "," (PyStr.lower s) = PyStr.lower <$> PyStr.split "," s.
Proof.
  induction s as [|a s IH]; [done |].
  cbn [PyStr.lower PyStr.split]. rewrite chr_lower_comma, IH.
  destruct (Ascii.eqb a ","); [done |].
  destruct (PyStr.split "," s) as [|piece rest]; done.
Qed.

Lemma parse_extensions_lower (extensions : option string) :
  parse_extensions (PyStr.lower <$> extensions) = parse_extensions extensions.
Proof.
  destruct extensions as [s|]; [| done]. cbn [fmap option_fmap option_map].
  unfold parse_extensions. rewrite truthy_lower.
  destruct (PyStr.truthy s); [| done].
  rewrite split_lower, <- list_fmap_compose. f_equal.
  apply list_fmap_ext. intros _ piece _. cbn. apply lower_idemp.
Qed.

(** The [--extensions] option is read without regard to letter case: the
    run with the option lower-cased is the same run.  The parsed allow-list is
    never an empty list, its entries are in lower case, and an absent or
    empty option gives no allow-list. *)
Theorem extensions_option_ignores_case (E : env) (working_copy : string → list node)
    (disk : gmap string string) (a : args) :
  main E working_copy disk
       {| repo_url := repo_url a; word := word a;
          extensions := PyStr.lower <$> extensions a;
          output := output a; ignore_case := Main.ignore_case a;
          branch := branch a |}
  = main E working_copy disk a
  ∧ parse_extensions (extensions a) ≠ Some []
  ∧ (∀ exts e,
       parse_extensions (extensions a) = Some exts → e ∈ exts → PyStr.lower e = e)
  ∧ (extensions a = None ∨ extensions a = Some "" →
     parse_extensions (extensions a) = None).
Proof.
  split; [| split; [| split]].
  - unfold main. cbn [repo_url word extensions output Main.ignore_case branch].
    by rewrite parse_extensions_lower.
  - unfold parse_extensions. destruct (extensions a) as [s|]; [| done].
    destruct (PyStr.truthy s); [| done]. intros [= H].
    apply fmap_nil_inv in H. by apply split_nonempty in H.
  - intros exts e. unfold parse_extensions. destruct (extensions a) as [s|]; [| done].
    destruct (PyStr.truthy s); [| done]. intros [= <-].
    intros (piece & -> & _)%list_elem_of_fmap. apply lower_idemp.
  - by intros [-> | ->].
Qed.







End MainFacts.

(** ** The walk leaves no other file out *)

Section WalkComplete.
Import Scanner ScanNotions.
Variable keep : string → bool.

Lemma node_files_prefix (n : node) :
  ∀ rel x, x ∈ node_files rel n → ∃ rest, x.1.1 = rel ++ rest.
Proof.
  induction n as [name data|d sub IH] using node_ind; intros rel x Hx.
  - apply list_elem_of_singleton in Hx as ->. exists []. by rewrite app_nil_r.
  - cbn [node_files] in Hx. rewrite flat_map_bind in Hx.
    apply list_elem_of_bind in Hx as (n & Hx & Hn).
    rewrite Forall_forall in IH. destruct (IH n Hn _ _ Hx) as [rest ->].
    exists (d :: rest). by rewrite <- app_assoc.
Qed.

Lemma filter_flat_map {A B} (P : B → Prop) `{!∀ x, Decision (P x)}
    (g : A → list B) (l : list A) :
  filter P (flat_map g l) = flat_map (λ x, filter P (g x)) l.
Proof.
  induction l as [|x l IH]; [done |]. cbn [flat_map]. by rewrite filter_app, IH.
Qed.

Lemma filter_none {A} (P : A → Prop) `{!∀ x, Decision (P x)} (l : list A) :
  (∀ x, x ∈ l → ¬ P x) → filter P l = [].
Proof.
  induction l as [|x l IH]; [done |]. intros Hnot.
  rewrite filter_cons, decide_False by (apply Hnot; by left).
  apply IH. intros y Hy. apply Hnot. by right.
Qed.

Lemma walk_dir_complete (entries : list node) :
  Forall (λ n, ∀ top rel,
            Forall (λ d, keep d = true) rel →
            vf_entry <$> visited_files (walk_node keep top rel n)
            ≡ₚ match n with
               | File _ _ => []
               | Dir _ _ =>
                   filter (λ x, Forall (λ d, keep d = true) x.1.1) (node_files rel n)
               end) entries →
  ∀ top rel,
    Forall (λ d, keep d = true) rel →
    vf_entry <$> visited_files (walk_dir (walk_node keep) top rel entries)
    ≡ₚ filter (λ x, Forall (λ d, keep d = true) x.1.1)
         (flat_map (node_files rel) entries).
Proof.
  intros Hall top rel Hrel. rewrite visited_files_walk_dir, fmap_app.
  unfold visit_files, files_of. cbn [root Scanner.rel files_here].
  induction Hall as [|n entries Hn _ IH]; [done |].
  cbn [flat_map]. rewrite filter_app. csimpl. rewrite fmap_app.
  destruct n as [name data|d sub].
  - cbn [walk_node visited_files flat_map fmap list_fmap app node_files].
    rewrite filter_cons, decide_True by done.
    cbn [fst snd vf_entry vf_rel vf_name vf_data]. by rewrite <- IH.
  - rewrite (Hn top rel Hrel), <- IH. apply Permutation_app_swap_app.
Qed.

Lemma walk_node_complete (n : node) :
  ∀ top rel,
    Forall (λ d, keep d = true) rel →
    vf_entry <$> visited_files (walk_node keep top rel n)
    ≡ₚ match n with
       | File _ _ => []
       | Dir _ _ => filter (λ x, Forall (λ d, keep d = true) x.1.1) (node_files rel n)
       end.
Proof.
  induction n as [name data|d sub IH] using node_ind; intros top rel Hrel; [done |].
  cbn [walk_node node_files]. destruct (keep d) eqn:Hd.
  - apply walk_dir_complete; [done |]. apply Forall_app. by repeat constructor.
  - rewrite filter_none; [done |].
    intros x Hx Hkept. rewrite flat_map_bind in Hx.
    apply list_elem_of_bind in Hx as (n & Hx & _).
    apply node_files_prefix in Hx as [rest Hx]. rewrite Hx in Hkept.
    rewrite !Forall_app in Hkept. destruct Hkept as [[_ Hk] _].
    inversion_clear Hk. congruence.
Qed.

Lemma os_walk_complete (top : string) (tree : list node) :
  vf_entry <$> visited_files (os_walk keep top tree)
  ≡ₚ filter (λ x, Forall (λ d, keep d = true) x.1.1) (tree_files tree).
Proof.
  unfold os_walk, tree_files. apply walk_dir_complete; [| constructor].
  apply Forall_forall. intros n _. apply walk_node_complete.
Qed.

End WalkComplete.

Section WalkCompleteTheorem.
Import Scanner ScanNotions.

(** The walk visits every file of the working copy that does not lie below
    a directory named [.git], and only those: the visited files, with the
    directories that lead to them, are the files of the tree without [.git]
    on their way, each as often as the tree has it. *)
Theorem walk_visits_all_files_outside_git (repo_path : string) (tree : list node) :
  vf_entry <$> visited_files (os_walk keep_dir repo_path tree)
  ≡ₚ filter (λ x, ".git" ∉ x.1.1) (tree_files tree).
Proof.
  rewrite os_walk_complete.
  assert (∀ l, Forall (λ d, keep_dir d = true) l ↔ ".git" ∉ l) as Hiff.
  { intros l. rewrite Forall_forall. unfold keep_dir. split.
    - intros H Hin. specialize (H _ Hin). by rewrite String.eqb_refl in H.
    - intros H d Hd. apply negb_true_iff, String.eqb_neq. by intros ->. }
  by rewrite (list_filter_iff _ (λ x, ".git" ∉ x.1.1) _ (λ x, Hiff x.1.1)).
Qed.

End WalkCompleteTheorem.

(** ** Worked examples of the further properties *)

Section FurtherWitnesses.
Import Acquisition Scanner Writer ScanNotions Main.

Lemma cache_path_of_final_segment_witness :
  valid_name "repo" = true
  ∧ PyStr.contains ".git" "repo" = false
  ∧ cache_path "https://github.com/user/repo.git" = "./repo_cache/repo"
  ∧ cache_path "git@example.org:team/repo" = "./repo_cache/repo".
Proof.
  split; [reflexivity |]. split; [reflexivity |].
  split.
  - exact (proj1 (proj2 (proj2 (cache_path_of_final_segment
                                  "https://github.com/user" "repo" eq_refl eq_refl)))).
  - exact (proj2 (proj2 (proj2 (cache_path_of_final_segment
                                  "git@example.org:team" "repo" eq_refl eq_refl)))).
Defined.

Lemma statistics_keys_are_lower_case_extensions_witness :
  is_Some (extension_stats (scan_repo Sample.repo_path Sample.tree "hello" None false)
           !! ".py")
  ∧ PyStr.lower ".py" = ".py".
Proof.
  assert (is_Some (extension_stats
                     (scan_repo Sample.repo_path Sample.tree "hello" None false)
                   !! ".py")) as H
    by (exists {| files := 2; lines := 3 |}; vm_compute; reflexivity).
  split; [exact H |].
  exact (proj1 (statistics_keys_are_lower_case_extensions
                  Sample.repo_path Sample.tree "hello" None false ".py" H)).
Defined.

Lemma report_lists_each_extension_once_in_order_witness :
  extension_stats (scan_repo Sample.repo_path Sample.tree "hello" None false) ≠ ∅
  ∧ Sorted String.le
      (sorted_keys
         (extension_stats (scan_repo Sample.repo_path Sample.tree "hello" None false))).
Proof.
  assert (extension_stats (scan_repo Sample.repo_path Sample.tree "hello" None false)
          ≠ ∅) as H.
  { intros Heq.
    assert (extension_stats (scan_repo Sample.repo_path Sample.tree "hello" None false)
            !! ".py" = Some {| files := 2; lines := 3 |}) as Hpy
      by (vm_compute; reflexivity).
    rewrite Heq in Hpy. discriminate Hpy. }
  split; [exact H |].
  exact (proj1 (proj2 (report_lists_each_extension_once_in_order _ H))).
Defined.

Lemma allow_list_without_dots_admits_nothing_witness :
  ["py"] ≠ []
  ∧ Forall (λ e, e ≠ "" ∧ PyStr.startswith "." e = false) ["py"]
  ∧ (search_word_in_repo Sample.repo_path Sample.tree "hello" (Some ["py"]) false).1
    = [].
Proof.
  assert (["py"] ≠ []) as H1 by discriminate.
  assert (Forall (λ e, e ≠ "" ∧ PyStr.startswith "." e = false) ["py"]) as H2.
  { constructor; [| constructor]. split; [discriminate | reflexivity]. }
  split; [exact H1 |]. split; [exact H2 |].
  exact (proj1 (allow_list_without_dots_admits_nothing
                  "hello" false ["py"] Sample.repo_path Sample.tree H1 H2)).
Defined.



End FurtherWitnesses.

Section FurtherExamples.
Import Acquisition Scanner Writer ScanNotions Main.

Example main_sample_output :
  (main Sample.env_existing SampleRun.working_copy ∅ SampleRun.args).2 !! "output.txt"
  = Some ("<filename>src/main.py</filename>" +:+ nl
          +:+ "print('hello')" +:+ nl +:+ "x = 1" +:+ nl).
Proof. vm_compute; reflexivity. Qed.

Example main_sample_failing_git :
  main Sample.env_failing SampleRun.working_copy ∅ SampleRun.args
  = ([Makedirs "./repo_cache";
      Print "Using existing repository at ./repo_cache/repo";
      Print "Checking out branch: dev";
      Run ["git"; "-C"; "./repo_cache/repo"; "fetch"]],
     Raised (CalledProcessError ["git"; "-C"; "./repo_cache/repo"; "fetch"] 128),
     ∅).
Proof. vm_compute; reflexivity. Qed.

Example parse_extensions_examples :
  (parse_extensions (Some ".PY,.Txt"), parse_extensions (Some ".py,"),
   parse_extensions (Some ""), parse_extensions None)
  = (Some [".py"; ".txt"], Some [".py"; ""], None, None).
Proof. reflexivity. Qed.

Example tree_files_of_sample :
  (λ x, (x.1.1, x.1.2)) <$> tree_files Sample.tree
  = [([], "README.md"); ([], "logo.png"); ([".git"], "HEAD");
     (["src"], "main.py"); (["src"], "Util.PY"); (["src"], "locked.py")].
Proof. reflexivity. Qed.

End FurtherExamples.

(** ** The letter case of the search term *)

Section TermCase.
Import Scanner.

Lemma omap_ext_all {A B} (g h : A → option B) (l : list A) :
  (∀ x, g x = h x) → omap g l = omap h l.
Proof.
  intros Hext. induction l as [|x l IH]; [done |].
  assert (omap g (x :: l)
          = match g x with Some y => y :: omap g l | None => omap g l end) as -> by done.
  assert (omap h (x :: l)
          = match h x with Some y => y :: omap h l | None => omap h l end) as -> by done.
  by rewrite IH, Hext.
Qed.

(** In case-insensitive mode the letter case of the search term plays no
    part: two terms with the same lower-case form give the same match list
    and the same statistics. *)
Theorem ignore_case_ignores_the_case_of_the_term (repo_path : string)
    (tree : list node) (allowed : option (list string)) (word1 word2 : string) :
  PyStr.lower word1 = PyStr.lower word2 →
  (search_word_in_repo repo_path tree word1 allowed true).1
  = (search_word_in_repo repo_path tree word2 allowed true).1
  ∧ extension_stats (scan_repo repo_path tree word1 allowed true)
    = extension_stats (scan_repo repo_path tree word2 allowed true).
Proof.
  intros Hlower. split.
  - unfold search_word_in_repo. cbn [fst].
    rewrite !scan_repo_flat, !scan_all_collected.
    cbn [initial_state collected_files app].
    apply omap_ext_all. intros f. unfold match_record, matched, word_found.
    by rewrite Hlower.
  - apply map_eq. intros e. by rewrite !scan_repo_stats.
Qed.

Lemma ignore_case_ignores_the_case_of_the_term_witness :
  PyStr.lower "HeLLo" = PyStr.lower "hello"
  ∧ (search_word_in_repo Sample.repo_path Sample.tree "HeLLo" None true).1
    = (search_word_in_repo Sample.repo_path Sample.tree "hello" None true).1.
Proof.
  split; [reflexivity |].
  exact (proj1 (ignore_case_ignores_the_case_of_the_term
                  Sample.repo_path Sample.tree None "HeLLo" "hello" eq_refl)).
Defined.

End TermCase.
